(** * GS_Scrape: the name normaliser, the record classifier and the report
    generator of [gsscrape], embedded from [src/gsscrape/scraper.py] and
    [src/gsscrape/reporter.py].

    Python strings are sequences of Unicode code points: a character is its
    code point ([N]) and a string a list of them.  Python integers are [Z].
    The dictionary of per-journal counters is a [gmap] keyed by the
    lower-cased journal name. *)

From Stdlib Require Import ZArith NArith List Ascii String Lia Bool.
From Stdlib Require Import Numbers.DecimalString Sorting.Permutation Sorting.Sorted.
From stdpp Require Import gmap sorting.

Import ListNotations.
Local Open Scope list_scope.

(* ===================================================================== *)
(** ** Strings *)
(* ===================================================================== *)

Module Str.

Definition char := N.
Definition str := list char.

(** A Python literal made of ASCII characters only. *)
Definition lit (s : string) : str :=
  List.map N_of_ascii (list_ascii_of_string s).

(** The line feed written [\n] in the source's literals. *)
Definition nl : str := [10%N].

Definition char_eqb (a b : char) : bool := N.eqb a b.

Fixpoint eqb (a b : str) : bool :=
  match a, b with
  | [], [] => true
  | x :: a', y :: b' => char_eqb x y && eqb a' b'
  | _, _ => false
  end.

(** [s.startswith(p)] *)
Fixpoint startswith (p s : str) : bool :=
  match p, s with
  | [], _ => true
  | _ :: _, [] => false
  | x :: p', y :: s' => char_eqb x y && startswith p' s'
  end.

(** [p in s] *)
Fixpoint contains (p s : str) : bool :=
  startswith p s ||
  match s with
  | [] => false
  | _ :: s' => contains p s'
  end.

(** [s.find(p)], [None] for Python's [-1] *)
Fixpoint find (p s : str) : option nat :=
  if startswith p s then Some O
  else match s with
       | [] => None
       | _ :: s' => option_map S (find p s')
       end.

(** [sep.join(l)] *)
Fixpoint join (sep : str) (l : list str) : str :=
  match l with
  | [] => []
  | [x] => x
  | x :: rest => x ++ sep ++ join sep rest
  end.

(** [s.replace(old, new)] for a non-empty [old]: the occurrences are found
    left to right and do not overlap.  [skip] counts the characters of a
    match that are still to be dropped. *)
Fixpoint replace_from (old new : str) (skip : nat) (s : str) : str :=
  match s with
  | [] => []
  | c :: rest =>
      match skip with
      | S k => replace_from old new k rest
      | O =>
          if startswith old s
          then new ++ replace_from old new (Nat.pred (length old)) rest
          else c :: replace_from old new O rest
      end
  end.

(** [s.replace(old, new)]; an empty [old] matches before every character
    and at the end. *)
Definition replace (s old new : str) : str :=
  match old with
  | [] => new ++ flat_map (fun c => c :: new) s
  | _ :: _ => replace_from old new O s
  end.

(** [s.split(sep)] for a non-empty [sep], as the first piece and the list of
    the pieces after it. *)
Fixpoint split_from (sep : str) (skip : nat) (s : str) : str * list str :=
  match s with
  | [] => ([], [])
  | c :: rest =>
      match skip with
      | S k => split_from sep k rest
      | O =>
          if startswith sep s
          then let '(h, t) := split_from sep (Nat.pred (length sep)) rest in
               ([], h :: t)
          else let '(h, t) := split_from sep O rest in
               (c :: h, t)
      end
  end.

(** [s.split(sep)].  Python raises [ValueError] on an empty separator; every
    call of the sources passes a literal, non-empty one. *)
Definition split (s sep : str) : list str :=
  let '(h, t) := split_from sep O s in h :: t.

(** [int.__str__], the text an f-string gives for an integer. *)
Definition of_int (z : Z) : str :=
  lit (NilEmpty.string_of_int (Z.to_int z)).

(** *** Case mappings

    The ASCII part of Python's case mappings is written out.  The mappings of
    the other code points are tables of CPython's Unicode database, which is
    no part of this repository: they are taken as a parameter. *)

Record unicode := {
  (** [_PyUnicode_ToUpperFull] *)
  uc_upper : char -> str;
  (** [_PyUnicode_ToLowerFull] *)
  uc_lower : char -> str;
  (** [_PyUnicode_ToTitleFull] *)
  uc_title : char -> str;
  (** [_PyUnicode_IsCased] *)
  uc_cased : char -> bool;
  (** whether the capital sigma at an index of a string is word-final
      ([handle_capital_sigma]) *)
  uc_final_sigma : str -> nat -> bool
}.

Definition is_ascii (c : char) : bool := (c <? 128)%N.
Definition is_ascii_upper (c : char) : bool := (65 <=? c)%N && (c <=? 90)%N.
Definition is_ascii_lower (c : char) : bool := (97 <=? c)%N && (c <=? 122)%N.

Definition ascii_upper (c : char) : char :=
  if is_ascii_lower c then (c - 32)%N else c.
Definition ascii_lower (c : char) : char :=
  if is_ascii_upper c then (c + 32)%N else c.

Section Case.
Variable U : unicode.

Definition upper_char (c : char) : str :=
  if is_ascii c then [ascii_upper c] else uc_upper U c.

(** [lower_ucs4]: the character at index [i] of [s], lower-cased. *)
Definition lower_char (s : str) (i : nat) (c : char) : str :=
  if (c =? 931)%N
  then [if uc_final_sigma U s i then 962%N else 963%N]
  else if is_ascii c then [ascii_lower c] else uc_lower U c.

Definition title_char (c : char) : str :=
  if is_ascii c then [ascii_upper c] else uc_title U c.

Definition cased (c : char) : bool :=
  if is_ascii c then is_ascii_upper c || is_ascii_lower c else uc_cased U c.

(** [s.upper()] *)
Definition upper (s : str) : str := flat_map upper_char s.

Fixpoint lower_from (s : str) (i : nat) (rest : str) : str :=
  match rest with
  | [] => []
  | c :: rest' => lower_char s i c ++ lower_from s (S i) rest'
  end.

(** [s.lower()] *)
Definition lower (s : str) : str := lower_from s O s.

Fixpoint title_from (s : str) (i : nat) (previous_is_cased : bool)
    (rest : str) : str :=
  match rest with
  | [] => []
  | c :: rest' =>
      (if previous_is_cased then lower_char s i c else title_char c)
      ++ title_from s (S i) (cased c) rest'
  end.

(** [s.title()] *)
Definition title_case (s : str) : str := title_from s O false s.
End Case.

(** [Py_UNICODE_ISSPACE], the characters [strip()] removes. *)
Definition is_space (c : char) : bool :=
  ((9 <=? c) && (c <=? 13) || (28 <=? c) && (c <=? 32) || (c =? 133)
   || (c =? 160) || (c =? 5760) || (8192 <=? c) && (c <=? 8202)
   || (c =? 8232) || (c =? 8233) || (c =? 8239) || (c =? 8287)
   || (c =? 12288))%N.

Fixpoint lstrip (s : str) : str :=
  match s with
  | [] => []
  | c :: rest => if is_space c then lstrip rest else s
  end.

(** [s.strip()] *)
Definition strip (s : str) : str := rev (lstrip (rev (lstrip s))).

(** The case tables that leave every code point outside ASCII as it is;
    they are used to run the functions on ASCII inputs, where the tables are
    not consulted. *)
Definition ascii_only : unicode :=
  {| uc_upper := fun c => [c];
     uc_lower := fun c => [c];
     uc_title := fun c => [c];
     uc_cased := fun _ => false;
     uc_final_sigma := fun _ _ => false |}.

End Str.

Import Str.

(* ===================================================================== *)
(** ** Exceptions *)
(* ===================================================================== *)

Inductive exn := IndexError | ValueError | KeyError.

Inductive result (A : Type) :=
| Ok (a : A)
| Raise (e : exn).
Arguments Ok {A} a.
Arguments Raise {A} e.

Definition bind {A B} (r : result A) (k : A -> result B) : result B :=
  match r with
  | Ok a => k a
  | Raise e => Raise e
  end.

Notation "'let!' x ':=' r 'in' k" := (bind r (fun x => k))
  (at level 10, x pattern, r at level 100, k at level 200).

(** [l[i]] *)
Definition index {A} (l : list A) (i : nat) : result A :=
  match nth_error l i with
  | Some a => Ok a
  | None => Raise IndexError
  end.

(** A row of the table of papers ([df_papers]). *)
Record paper := {
  title : str;
  authors : str;
  reference : str;
  journal : str;
  year : Z;
  citations : Z;
  url : str;
  citationsyears : list str;
  isarxiv : bool
}.

(* ===================================================================== *)
(** ** scraper.py *)
(* ===================================================================== *)

Module Scraper.

Definition unify_pseudonyms (input_string : str) (pseudonyms : list str)
    (name : str) : str :=
  fold_left (fun input_string pseudonym => replace input_string pseudonym name)
            pseudonyms input_string.

Section WithUnicode.
Variable U : unicode.

(** The body of the loop of [format_names]. *)
Definition format_name (name : str) : str :=
  let surname := join (lit " ") (tl (split name (lit " "))) in
  let initials := hd [] (split name (lit " ")) in
  let isname := (3 <=? length initials)%nat in
  let initials := if isname then firstn 1 initials else initials in
  let initials := upper U initials in
  let initials := join (lit ".") (List.map (fun c => [c]) initials) ++ lit "." in
  join (lit " ") [initials; surname].

Definition format_names (name_string : str) : str :=
  let names := split name_string (lit ", ") in
  let formatted_names :=
    fold_left (fun formatted_names name => formatted_names ++ [format_name name])
              names [] in
  join (lit ", ") formatted_names.

(** What the browser shows for one entry of the profile: the row of the
    list view and the detail page behind its link.  [gsc_a_y] and [gsc_a_ac]
    hold what [int] makes of the year and citation cells, [None] when it
    raises.  An entry stands for a page on which every [find_element] of the
    loop finds its element, the new window opens and the detail page loads:
    the exceptions of the browser are not part of it. *)
Record entry := {
  gsc_a_at_text : str;
  gsc_a_at_href : str;
  gs_gray : list str;
  gsc_a_y : option Z;
  gsc_a_ac : option Z;
  gsc_oci_title_link : str;
  gsc_oci_g_al : list str;
  gsc_oci_value : list str
}.

(** The test of line 271. *)
Definition is_arxiv (journalTitle : str) : bool :=
  contains (lit "arxiv") (lower U journalTitle).

(** The body of the loop over the papers of [getGSdata]. *)
Definition scrape_paper (name : str) (pseudonyms : list str) (e : entry)
    : result paper :=
  let title := gsc_a_at_text e in
  let! reference := index (gs_gray e) 1 in
  let! year := match gsc_a_y e with Some y => Ok y | None => Raise ValueError end in
  let citations := match gsc_a_ac e with Some c => c | None => 0%Z end in
  let paperlink := gsc_oci_title_link e in
  let citeyears := gsc_oci_g_al e in
  let! journalTitle := index (gsc_oci_value e) 2 in
  let journalTitle := title_case U journalTitle in
  let! authors := index (gsc_oci_value e) 0 in
  let authors := title_case U authors in
  (* the value of the call is dropped: Python strings are immutable *)
  let _ := unify_pseudonyms authors pseudonyms name in
  let authors_formatted := format_names authors in
  let isarxiv := is_arxiv journalTitle in
  let! (reference, journalTitle) :=
     (if isarxiv
      then let! piece := index (split reference (lit "arXiv:")) 1 in
           Ok (lit "arXiv: " ++ piece, lit "arXiv")
      else Ok (reference, journalTitle)) in
  Ok {| title := title; authors := authors_formatted; reference := reference;
        journal := journalTitle; year := year; citations := citations;
        url := paperlink; citationsyears := citeyears; isarxiv := isarxiv |}.

(** The loop itself: the rows in page order, or the first exception. *)
Fixpoint scrape_papers (name : str) (pseudonyms : list str)
    (papers : list entry) (infoList : list paper) : result (list paper) :=
  match papers with
  | [] => Ok infoList
  | e :: rest =>
      let! paperInfo := scrape_paper name pseudonyms e in
      scrape_papers name pseudonyms rest (infoList ++ [paperInfo])
  end.

Definition getGSdata (name : str) (pseudonyms : list str)
    (papers : list entry) : result (list paper) :=
  scrape_papers name pseudonyms papers [].

End WithUnicode.
End Scraper.

(* ===================================================================== *)
(** ** reporter.py *)
(* ===================================================================== *)

Module Reporter.

(** The value of one key of [journal_counts]. *)
Record jcount := { count : Z; first_author : Z; last_author : Z }.

Definition jzero : jcount := {| count := 0; first_author := 0; last_author := 0 |}.

Definition incr_count (c : jcount) : jcount :=
  {| count := count c + 1; first_author := first_author c;
     last_author := last_author c |}.
Definition incr_first_author (c : jcount) : jcount :=
  {| count := count c; first_author := first_author c + 1;
     last_author := last_author c |}.
Definition incr_last_author (c : jcount) : jcount :=
  {| count := count c; first_author := first_author c;
     last_author := last_author c + 1 |}.

(** [if key in d: d[key][field] += 1] *)
Definition incr_if_in (f : jcount -> jcount) (key : str)
    (d : gmap str jcount) : gmap str jcount :=
  match d !! key with
  | Some c => <[key := f c]> d
  | None => d
  end.

(** The default of the parameter [journals_to_count]. *)
Definition default_journals : list str :=
  [lit "Nature Photonics"; lit "Nature Communications"; lit "Nature Materials";
   lit "Science Advances"; lit "Physical Review Letters"; lit "PRX";
   lit "PRX Quantum"].

(** The variables the first loop updates. *)
Record state := {
  peer_reviewed_count : Z;
  first_author_count : Z;
  last_author_count : Z;
  journal_counts : gmap str jcount;
  latex_snippet : str;
  total_citations : Z;
  citation_counts : list Z
}.

(** [sorted(l, reverse=True)] *)
Definition sorted_reverse (l : list Z) : list Z :=
  merge_sort Z.ge l.

(** The loop of lines 132-136; [i] is the index [enumerate] gives. *)
Fixpoint h_index_loop (i : Z) (h_index : Z) (sorted_citations : list Z) : Z :=
  match sorted_citations with
  | [] => h_index
  | citation :: rest =>
      if (i + 1 <=? citation)%Z
      then h_index_loop (i + 1) (i + 1) rest
      else h_index
  end.

Definition h_index_of (citation_counts : list Z) : Z :=
  h_index_loop 0 0 (sorted_reverse citation_counts).

(** [authors.replace(name, f"\\textbf{{{name}}}")] *)
Definition bolden (authors name : str) : str :=
  replace authors name (lit "\textbf{" ++ name ++ lit "}").

(** The entry of lines 120-124. *)
Definition peer_entry (title authors_bolded url reference : str) (year : Z) : str :=
  (lit " \item \emph{" ++ title ++ lit "}.\\ " ++ nl)
  ++ (lit "{" ++ authors_bolded ++ lit "}\\ " ++ nl)
  ++ (lit "  \href{" ++ url ++ lit "}{{" ++ reference ++ lit " ("
      ++ of_int year ++ lit ")}}" ++ nl ++ nl).

(** The entry of lines 184-188. *)
Definition preprint_entry (title authors_bolded url reference : str) (year : Z) : str :=
  (lit " \item \emph{" ++ title ++ lit "}.\\ " ++ nl)
  ++ (lit "{" ++ authors_bolded ++ lit "}\\ " ++ nl)
  ++ (lit "  \href{" ++ url ++ lit "}{{" ++ reference ++ lit " ("
      ++ of_int year ++ lit ")}}" ++ nl ++ nl).

(** The phrase of lines 152-158 for one journal. *)
Definition journal_phrase (journal : str) (c : jcount) : str :=
  let first_author_count_journal := first_author c in
  let last_author_count_journal := last_author c in
  let journal_str := of_int (count c) ++ lit " " ++ journal in
  if (0 <? first_author_count_journal)%Z && (0 <? last_author_count_journal)%Z
  then journal_str ++ lit " (" ++ of_int first_author_count_journal
       ++ lit " first author, " ++ of_int last_author_count_journal
       ++ lit " last author)"
  else if (0 <? first_author_count_journal)%Z
  then journal_str ++ lit " (" ++ of_int first_author_count_journal
       ++ lit " first author)"
  else if (0 <? last_author_count_journal)%Z
  then journal_str ++ lit " (" ++ of_int last_author_count_journal
       ++ lit " last author)"
  else journal_str.

Section WithUnicode.
Variable U : unicode.

(** The dictionary comprehension of line 72. *)
Definition init_journal_counts (journals_to_count : list str) : gmap str jcount :=
  fold_left (fun d journal => <[lower U journal := jzero]> d)
            journals_to_count ∅.

Definition init_state (journals_to_count : list str) : state :=
  {| peer_reviewed_count := 0; first_author_count := 0; last_author_count := 0;
     journal_counts := init_journal_counts journals_to_count;
     latex_snippet := lit "\begin{enumerate}" ++ nl;
     total_citations := 0; citation_counts := [] |}.

(** [[author.strip() for author in authors.split(',')]] *)
Definition authors_list (authors : str) : list str :=
  List.map strip (split authors (lit ",")).

Definition is_first_author (name : str) (row : paper) : bool :=
  Str.eqb (hd [] (authors_list (authors row))) name.

Definition is_last_author (name : str) (row : paper) : bool :=
  Str.eqb (List.last (authors_list (authors row)) []) name.

(** The body of the loop over the rows that are not preprints. *)
Definition peer_step (name : str) (st : state) (row : paper) : state :=
  let reference := title_case U (reference row) in
  let journal_title := journal row in
  let peer_reviewed_count := (peer_reviewed_count st + 1)%Z in
  let citation_counts := citation_counts st ++ [citations row] in
  let total_citations := (total_citations st + citations row)%Z in
  let '(first_author_count, journal_counts) :=
    if is_first_author name row
    then ((first_author_count st + 1)%Z,
          incr_if_in incr_first_author (lower U journal_title) (journal_counts st))
    else (first_author_count st, journal_counts st) in
  let '(last_author_count, journal_counts) :=
    if is_last_author name row
    then ((last_author_count st + 1)%Z,
          incr_if_in incr_last_author (lower U journal_title) journal_counts)
    else (last_author_count st, journal_counts) in
  let journal_lower := lower U journal_title in
  let journal_counts := incr_if_in incr_count journal_lower journal_counts in
  let authors_bolded := bolden (authors row) name in
  {| peer_reviewed_count := peer_reviewed_count;
     first_author_count := first_author_count;
     last_author_count := last_author_count;
     journal_counts := journal_counts;
     latex_snippet := latex_snippet st
       ++ peer_entry (title row) authors_bolded (url row) reference (year row);
     total_citations := total_citations;
     citation_counts := citation_counts |}.

(** [df_papers[df_papers['isarxiv'] == False]] and [... == True] *)
Definition peer_rows (df_papers : list paper) : list paper :=
  List.filter (fun row => negb (isarxiv row)) df_papers.
Definition preprint_rows (df_papers : list paper) : list paper :=
  List.filter (fun row => isarxiv row) df_papers.

(** The state after the first loop. *)
Definition peer_loop (name : str) (journals_to_count : list str)
    (df_papers : list paper) : state :=
  fold_left (peer_step name) (peer_rows df_papers) (init_state journals_to_count).

(** The loop of lines 146-159. *)
Fixpoint journal_report (journal_counts : gmap str jcount)
    (journals_to_count : list str) (report : list str) : result (list str) :=
  match journals_to_count with
  | [] => Ok report
  | journal :: rest =>
      let journal_lower := lower U journal in
      let! c := match journal_counts !! journal_lower with
                | Some c => Ok c
                | None => Raise KeyError
                end in
      if (0 <? count c)%Z
      then journal_report journal_counts rest (report ++ [journal_phrase journal c])
      else journal_report journal_counts rest report
  end.

(** The text of lines 140-166. *)
Definition statistics (st : state) (journals_to_count : list str)
    (current_date : str) : result str :=
  let h_index := h_index_of (citation_counts st) in
  let statistics_text :=
    nl ++ of_int (peer_reviewed_count st) ++ lit " peer-reviewed publications, "
    ++ of_int (first_author_count st) ++ lit " papers as first author, "
    ++ of_int (last_author_count st) ++ lit " papers as last author." ++ nl in
  let! report := journal_report (journal_counts st) journals_to_count [] in
  let statistics_text :=
    match report with
    | [] => statistics_text
    | _ :: _ => statistics_text ++ lit "These include "
                ++ join (lit ", ") report ++ lit "." ++ nl
    end in
  Ok (statistics_text ++ lit "\textbf{h-index: " ++ of_int h_index
      ++ lit ". Citations: " ++ of_int (total_citations st)
      ++ lit "} (Google Scholar, as of " ++ current_date ++ lit ").").

(** The body of the loop over the preprints. *)
Definition preprint_step (name : str) (latex_snippet : str) (row : paper) : str :=
  let reference := reference row in
  let authors_bolded := bolden (authors row) name in
  latex_snippet
  ++ preprint_entry (title row) authors_bolded (url row) reference (year row).

(** The two lists of the document, lines 75-127 and 169-191. *)
Definition papers_list (name : str) (journals_to_count : list str)
    (df_papers : list paper) : str :=
  let latex_snippet :=
    latex_snippet (peer_loop name journals_to_count df_papers) in
  let latex_snippet := latex_snippet ++ lit "\end{enumerate}" ++ nl in
  let latex_snippet :=
    latex_snippet ++ nl ++ lit "\begin{center}" ++ nl ++ lit "\textsc{Preprints}"
    ++ nl ++ lit "\end{center}" ++ nl in
  let latex_snippet := latex_snippet ++ lit "\begin{enumerate}" ++ nl in
  let latex_snippet :=
    fold_left (preprint_step name) (preprint_rows df_papers) latex_snippet in
  latex_snippet ++ lit "\end{enumerate}" ++ nl.

(** What [generate_latex_report] writes to [output_file]; [current_date] is
    the text of today's date. *)
Definition generate_latex_report (df_papers : list paper) (name : str)
    (journals_to_count : list str) (current_date : str) : result str :=
  let st := peer_loop name journals_to_count df_papers in
  let! statistics_text := statistics st journals_to_count current_date in
  Ok (statistics_text ++ nl ++ nl
      ++ papers_list name journals_to_count df_papers).

End WithUnicode.
End Reporter.

(* ===================================================================== *)
(** ** The pagination loop of getGSdata *)
(* ===================================================================== *)

Module Pagination.
Section Browser.

(** What the browser shows, as far as the loop of lines 206-217 looks at it:
    [gsc_a_tr] is the number of elements of that class on the page, and
    [mostrar_mas] is the page after a click on the button, [None] when the
    lookup of the button or the click raises. *)
Variable page : Type.
Variable gsc_a_tr : page -> nat.
Variable mostrar_mas : page -> option page.

(** The loop [while(updateFlag==0)]; it gives the page it leaves the browser
    on, and [None] when [fuel] turns of the loop were not enough. *)
Fixpoint show_all (fuel : nat) (updateFlag : Z) (p : page) {struct fuel}
    : option page :=
  if (updateFlag =? 0)%Z
  then match fuel with
       | O => None
       | S fuel =>
           let npapersOld := gsc_a_tr p in
           match mostrar_mas p with
           | None => Some p
           | Some p' =>
               let npapers := gsc_a_tr p' in
               show_all fuel (if (npapers =? npapersOld)%nat then 1%Z else 0%Z) p'
           end
       end
  else Some p.

End Browser.
End Pagination.

(* ===================================================================== *)
(** ** Vocabulary of the statements *)
(* ===================================================================== *)

(** The part of [s] behind the first occurrence of [sep]. *)
Definition after_first (sep s : str) : str :=
  match find sep s with
  | Some n => drop (n + length sep) s
  | None => []
  end.

(** The part of [s] up to the first occurrence of [sep], all of [s] when
    there is none. *)
Definition up_to_first (sep s : str) : str :=
  match find sep s with
  | Some n => take n s
  | None => s
  end.

(** A period behind every character of [t]. *)
Definition periods (t : str) : str :=
  flat_map (fun c => [c; 46%N]) t.

(** The character [c] occurs in [s]. *)
Definition has_char (c : char) (s : str) : bool := existsb (char_eqb c) s.

(** The tokens of a text between white space, as the spec words the
    tokens of a name: the pieces between runs of white-space characters.
    [token] is the piece read so far. *)
Fixpoint whitespace_tokens_from (token : str) (s : str) : list str :=
  match s with
  | [] => match token with [] => [] | _ :: _ => [token] end
  | c :: rest =>
      if is_space c
      then match token with
           | [] => whitespace_tokens_from [] rest
           | _ :: _ => token :: whitespace_tokens_from [] rest
           end
      else whitespace_tokens_from (token ++ [c]) rest
  end.

Definition whitespace_tokens (s : str) : list str :=
  whitespace_tokens_from [] s.

(** The formatted name as the spec words it, to be compared with
    [Scraper.format_name]: the first white-space-delimited token, cut to its
    first character when it has three or more, in upper case with a period
    behind every character, joined with the other tokens as the surname. *)
Definition format_name_as_worded (U : unicode) (name : str) : str :=
  let tokens := whitespace_tokens name in
  let token := hd [] tokens in
  periods (upper U (if (3 <=? length token)%nat then take 1 token else token))
  ++ lit " " ++ join (lit " ") (tl tokens).

(** [format_names] as the spec words it: the names between the separators
    [", "], each formatted as above. *)
Definition format_names_as_worded (U : unicode) (name_string : str) : str :=
  join (lit ", ")
    (List.map (format_name_as_worded U) (split name_string (lit ", "))).

(** [John<TAB>Smith], a name whose two words stand around a tabulator. *)
Definition john_tab_smith : str := lit "John" ++ [9%N] ++ lit "Smith".

(** The canonical name of the examples of the sources, C. Sánchez Muñoz. *)
Definition sanchez_munoz : str :=
  lit "C. S" ++ [225%N] ++ lit "nchez Mu" ++ [241%N] ++ lit "oz".

(** An entry whose detail page lists the scholar under an alias. *)
Definition alias_entry : Scraper.entry :=
  {| Scraper.gsc_a_at_text := lit "Photon correlations";
     Scraper.gsc_a_at_href := lit "https://scholar.google.es/citations?view_op=view_citation";
     Scraper.gs_gray := [lit "CS Munoz, E del Valle"; lit "Physical Review Letters 1 (2), 3, 2020"];
     Scraper.gsc_a_y := Some 2020%Z;
     Scraper.gsc_a_ac := Some 12%Z;
     Scraper.gsc_oci_title_link := lit "https://journals.aps.org/prl/1";
     Scraper.gsc_oci_g_al := [];
     Scraper.gsc_oci_value :=
       [lit "C S Munoz, E Del Valle"; lit "2020/1/1"; lit "Physical Review Letters"] |}.

(** A preprint whose reference line names the archive twice. *)
Definition twice_entry : Scraper.entry :=
  {| Scraper.gsc_a_at_text := lit "Two versions";
     Scraper.gsc_a_at_href := lit "https://scholar.google.es/citations?view_op=view_citation";
     Scraper.gs_gray := [lit "A Smith"; lit "arXiv:2401.00001, arXiv:2402.00002, 2024"];
     Scraper.gsc_a_y := Some 2024%Z;
     Scraper.gsc_a_ac := None;
     Scraper.gsc_oci_title_link := lit "https://arxiv.org/abs/2401.00001";
     Scraper.gsc_oci_g_al := [];
     Scraper.gsc_oci_value :=
       [lit "A Smith"; lit "2024/1/1"; lit "arXiv preprint arXiv:2401.00001"] |}.

(** A preprint with the usual reference line. *)
Definition arxiv_entry : Scraper.entry :=
  {| Scraper.gsc_a_at_text := lit "One version";
     Scraper.gsc_a_at_href := lit "https://scholar.google.es/citations?view_op=view_citation";
     Scraper.gs_gray := [lit "A Smith"; lit "arXiv preprint arXiv:2401.00001, 2024"];
     Scraper.gsc_a_y := Some 2024%Z;
     Scraper.gsc_a_ac := None;
     Scraper.gsc_oci_title_link := lit "https://arxiv.org/abs/2401.00001";
     Scraper.gsc_oci_g_al := [];
     Scraper.gsc_oci_value :=
       [lit "A Smith"; lit "2024/1/1"; lit "arXiv preprint arXiv:2401.00001"] |}.

(** A preprint whose reference line lacks the marker. *)
Definition unmarked_entry : Scraper.entry :=
  {| Scraper.gsc_a_at_text := lit "No marker";
     Scraper.gsc_a_at_href := lit "https://scholar.google.es/citations?view_op=view_citation";
     Scraper.gs_gray := [lit "A Smith"; lit "Arxiv e-prints, 2024"];
     Scraper.gsc_a_y := Some 2024%Z;
     Scraper.gsc_a_ac := None;
     Scraper.gsc_oci_title_link := lit "https://arxiv.org/abs/2401.00001";
     Scraper.gsc_oci_g_al := [];
     Scraper.gsc_oci_value :=
       [lit "A Smith"; lit "2024/1/1"; lit "arXiv e-prints"] |}.

(** Rank [r], counted from 1, of a list of citation counts is good when the
    count at that rank is at least [r]. *)
Definition rank_ok (s : list Z) (r : Z) : Prop :=
  (1 <= r <= Z.of_nat (length s))%Z /\ (r <= nth (Z.to_nat (r - 1)) s 0)%Z.

(** The number of rows a test accepts. *)
Definition count_rows (P : paper -> bool) (rows : list paper) : Z :=
  Z.of_nat (length (List.filter P rows)).

(** The sum of the citation fields of the rows. *)
Definition sum_citations (rows : list paper) : Z :=
  fold_right (fun row acc => (citations row + acc)%Z) 0%Z rows.

Definition peer_reviewed (row : paper) : bool := negb (isarxiv row).

(** The row is in the journal with lower-cased name [key]. *)
Definition in_journal (U : unicode) (key : str) (row : paper) : bool :=
  Str.eqb (lower U (journal row)) key.

(** The three numbers the report gives for a tracked journal, counted over
    the table. *)
Definition venue_tally (U : unicode) (name : str) (df_papers : list paper)
    (journal : str) : Reporter.jcount :=
  let key := lower U journal in
  {| Reporter.count :=
       count_rows (fun row => peer_reviewed row && in_journal U key row) df_papers;
     Reporter.first_author :=
       count_rows (fun row => peer_reviewed row && in_journal U key row
                              && Reporter.is_first_author name row) df_papers;
     Reporter.last_author :=
       count_rows (fun row => peer_reviewed row && in_journal U key row
                              && Reporter.is_last_author name row) df_papers |}.

(** The phrase of a tracked journal with [count] papers, [n] of them as
    first and [m] as last author. *)
Definition venue_phrase (journal : str) (count n m : Z) : str :=
  of_int count ++ lit " " ++ journal
  ++ (if (0 <? n)%Z && (0 <? m)%Z
      then lit " (" ++ of_int n ++ lit " first author, " ++ of_int m ++ lit " last author)"
      else if (0 <? n)%Z then lit " (" ++ of_int n ++ lit " first author)"
      else if (0 <? m)%Z then lit " (" ++ of_int m ++ lit " last author)"
      else []).

(** One item of a numbered list: the emphasised title, the author line with
    the name in bold, the linked reference with the year. *)
Definition item_text (name title authors url reference : str) (year : Z) : str :=
  lit " \item \emph{" ++ title ++ lit "}.\\ " ++ nl
  ++ lit "{" ++ replace authors name (lit "\textbf{" ++ name ++ lit "}") ++ lit "}\\ " ++ nl
  ++ lit "  \href{" ++ url ++ lit "}{{" ++ reference ++ lit " (" ++ of_int year
  ++ lit ")}}" ++ nl ++ nl.

(** The document around the items of the two lists. *)
Definition two_lists (peer_items preprint_items : str) : str :=
  lit "\begin{enumerate}" ++ nl ++ peer_items ++ lit "\end{enumerate}" ++ nl
  ++ nl ++ lit "\begin{center}" ++ nl ++ lit "\textsc{Preprints}" ++ nl
  ++ lit "\end{center}" ++ nl
  ++ lit "\begin{enumerate}" ++ nl ++ preprint_items ++ lit "\end{enumerate}" ++ nl.

(** A paper in a journal whose reference line is not in title case, and the
    same fields marked as a preprint. *)
Definition journal_paper : paper :=
  {| title := lit "Photon correlations"; authors := lit "A. Smith, B. Jones";
     reference := lit "Journal of Physics B 1 (2), 3, 2020";
     journal := lit "Journal Of Physics B"; year := 2020; citations := 4;
     url := lit "https://iopscience.iop.org/1"; citationsyears := [];
     isarxiv := false |}.

Definition journal_paper_as_preprint : paper :=
  {| title := lit "Photon correlations"; authors := lit "A. Smith, B. Jones";
     reference := lit "Journal of Physics B 1 (2), 3, 2020";
     journal := lit "Journal Of Physics B"; year := 2020; citations := 4;
     url := lit "https://iopscience.iop.org/1"; citationsyears := [];
     isarxiv := true |}.

(** The scenario of the spec: three papers in Nature Photonics with 5, 3 and
    1 citations, the first of them with the scholar as first author. *)
Definition scenario : list paper :=
  [ {| title := lit "First"; authors := lit "A. Smith, B. Jones";
       reference := lit "Nature Photonics 1 (1), 1, 2022";
       journal := lit "Nature Photonics"; year := 2022; citations := 5;
       url := lit "https://www.nature.com/1"; citationsyears := [];
       isarxiv := false |};
    {| title := lit "Second"; authors := lit "B. Jones, A. Smith, C. Doe";
       reference := lit "Nature Photonics 2 (2), 2, 2021";
       journal := lit "Nature Photonics"; year := 2021; citations := 3;
       url := lit "https://www.nature.com/2"; citationsyears := [];
       isarxiv := false |};
    {| title := lit "Third"; authors := lit "B. Jones, C. Doe";
       reference := lit "Nature Photonics 3 (3), 3, 2020";
       journal := lit "Nature Photonics"; year := 2020; citations := 1;
       url := lit "https://www.nature.com/3"; citationsyears := [];
       isarxiv := false |} ].

(** The sum of two triples of counters. *)
Definition jc_add (a b : Reporter.jcount) : Reporter.jcount :=
  {| Reporter.count := Reporter.count a + Reporter.count b;
     Reporter.first_author := Reporter.first_author a + Reporter.first_author b;
     Reporter.last_author := Reporter.last_author a + Reporter.last_author b |}.

(** What a list of rows adds to the counters of the key [key]. *)
Definition key_tally (U : unicode) (name : str) (rows : list paper)
    (key : str) : Reporter.jcount :=
  {| Reporter.count := count_rows (in_journal U key) rows;
     Reporter.first_author :=
       count_rows (fun row => in_journal U key row
                              && Reporter.is_first_author name row) rows;
     Reporter.last_author :=
       count_rows (fun row => in_journal U key row
                              && Reporter.is_last_author name row) rows |}.

(** The number of counts of the list that are at least [r]. *)
Definition at_least (r : Z) (l : list Z) : Z :=
  Z.of_nat (length (List.filter (fun c => (r <=? c)%Z) l)).

(** The sum of a list of integers. *)
Definition sum_list (l : list Z) : Z := fold_right Z.add 0%Z l.

(** The page after [k] clicks that all went through. *)
Fixpoint clicks {page : Type} (mostrar_mas : page -> option page) (k : nat)
    (p : page) : option page :=
  match k with
  | O => Some p
  | S k => match mostrar_mas p with
           | Some p' => clicks mostrar_mas k p'
           | None => None
           end
  end.

(** A profile of [total] papers that shows a hundred more at each click
    and whose button stays: a page is the number of papers it shows. *)
Definition profile_click (total : nat) (shown : nat) : option nat :=
  Some (Nat.min (shown + 100) total).

(** The row the report reads back when the scraper stored [authors]. *)
Definition row_with_authors (authors : str) : paper :=
  {| title := []; authors := authors; reference := []; journal := [];
     year := 0; citations := 0; url := []; citationsyears := [];
     isarxiv := false |}.

(** The initials of a name, with their periods. *)
Definition dotted_initials (U : unicode) (name : str) : str :=
  let token := up_to_first (lit " ") name in
  match upper U (if (3 <=? length token)%nat then take 1 token else token) with
  | [] => lit "."
  | c :: t => periods (c :: t)
  end.

(* ===================================================================== *)
(** ** Facts about the string operations *)
(* ===================================================================== *)

Section StrFacts.

Lemma char_eqb_eq (a b : char) : char_eqb a b = true <-> a = b.
Proof. apply N.eqb_eq. Qed.

Lemma str_eqb_eq (a b : str) : Str.eqb a b = true <-> a = b.
Proof.
  revert b; induction a as [|x a IH]; intros [|y b]; simpl; try (split; congruence).
  rewrite andb_true_iff, char_eqb_eq, IH. split.
  - intros [-> ->]; reflexivity.
  - intros [= -> ->]; auto.
Qed.

Lemma startswith_app (p r : str) : startswith p (p ++ r) = true.
Proof.
  induction p as [|x p IH]; simpl; [reflexivity|].
  rewrite IH, andb_true_r. apply N.eqb_refl.
Qed.

Lemma startswith_inv (p s : str) :
  startswith p s = true -> s = p ++ drop (length p) s.
Proof.
  revert s; induction p as [|x p IH]; intros s H; simpl in *; [reflexivity|].
  destruct s as [|y s]; [discriminate|].
  apply andb_true_iff in H as [Hc Hs]. apply char_eqb_eq in Hc as ->.
  simpl. f_equal. apply IH, Hs.
Qed.

Lemma startswith_nil_r (p : str) : p <> [] -> startswith p [] = false.
Proof. destruct p; [congruence | reflexivity]. Qed.

Lemma find_unfold (p s : str) :
  find p s = if startswith p s then Some O
             else match s with
                  | [] => None
                  | _ :: s' => option_map S (find p s')
                  end.
Proof. destruct s; reflexivity. Qed.

Lemma replace_nonempty (s old new : str) :
  old <> [] -> replace s old new = replace_from old new O s.
Proof. destruct old; [congruence | reflexivity]. Qed.

Lemma contains_find (p s : str) :
  contains p s = match find p s with Some _ => true | None => false end.
Proof.
  induction s as [|c s IH]; simpl.
  - destruct (startswith p []); reflexivity.
  - destruct (startswith p (c :: s)); simpl; [reflexivity|].
    rewrite IH. destruct (find p s); reflexivity.
Qed.

Lemma find_None_contains (p s : str) :
  find p s = None <-> contains p s = false.
Proof. rewrite contains_find. destruct (find p s); split; congruence. Qed.

Lemma find_Some_bound (p s : str) (n : nat) :
  find p s = Some n -> (n + length p <= length s)%nat.
Proof.
  revert n; induction s as [|c s IH]; intros n; simpl.
  - destruct p; simpl; [intros [= <-]; simpl; lia | discriminate].
  - destruct (startswith p (c :: s)) eqn:E.
    + intros [= <-]. apply startswith_inv in E.
      apply (f_equal (@length _)) in E. rewrite length_app in E. simpl in *. lia.
    + destruct (find p s) as [m|]; simpl; [|discriminate].
      intros [= <-]. specialize (IH m eq_refl). lia.
Qed.

Lemma replace_from_skip (old new : str) (k : nat) (s : str) :
  replace_from old new k s = replace_from old new O (drop k s).
Proof.
  revert k; induction s as [|c s IH]; intros [|k]; try reflexivity.
  simpl replace_from at 1. rewrite IH. reflexivity.
Qed.

Lemma split_from_skip (sep : str) (k : nat) (s : str) :
  split_from sep k s = split_from sep O (drop k s).
Proof.
  revert k; induction s as [|c s IH]; intros [|k]; try reflexivity.
  simpl split_from at 1. rewrite IH. reflexivity.
Qed.

(** One step of [replace] at a position where [old] does not start. *)
Lemma replace_from_miss (old new : str) (c : char) (s : str) :
  startswith old (c :: s) = false ->
  replace_from old new O (c :: s) = c :: replace_from old new O s.
Proof. intros H. simpl replace_from. rewrite H. reflexivity. Qed.

(** One step of [replace] at a position where [old] starts. *)
Lemma replace_from_hit (old new s : str) :
  old <> [] -> startswith old s = true ->
  replace_from old new O s = new ++ replace_from old new O (drop (length old) s).
Proof.
  intros Hne H. destruct s as [|c s].
  - destruct old; [congruence | discriminate].
  - simpl replace_from. rewrite H. rewrite replace_from_skip.
    destruct old as [|o old]; [congruence|]. reflexivity.
Qed.

Lemma split_from_miss (sep : str) (c : char) (s : str) :
  startswith sep (c :: s) = false ->
  split_from sep O (c :: s)
  = (c :: fst (split_from sep O s), snd (split_from sep O s)).
Proof.
  intros H. simpl split_from. rewrite H.
  destruct (split_from sep O s); reflexivity.
Qed.

Lemma split_from_hit (sep s : str) :
  sep <> [] -> startswith sep s = true ->
  split_from sep O s = ([], split (drop (length sep) s) sep).
Proof.
  intros Hne H. destruct s as [|c s].
  - destruct sep; [congruence | discriminate].
  - simpl split_from. rewrite H. rewrite split_from_skip.
    destruct sep as [|o sep]; [congruence|]. unfold split. simpl.
    destruct (split_from _ _ _); reflexivity.
Qed.

Lemma split_cons (s sep : str) :
  split s sep = fst (split_from sep O s) :: snd (split_from sep O s).
Proof. unfold split. destruct (split_from sep O s); reflexivity. Qed.

(** [replace] leaves a string without occurrence as it is. *)
Lemma replace_absent (s old new : str) :
  find old s = None -> replace s old new = s.
Proof.
  destruct (decide (old = [])) as [->|Hne].
  { destruct s; discriminate. }
  rewrite replace_nonempty by assumption.
  induction s as [|c s IH]; [reflexivity|].
  rewrite find_unfold. destruct (startswith old (c :: s)) eqn:E; [discriminate|].
  destruct (find old s) eqn:F; [discriminate|]. intros _.
  rewrite replace_from_miss by exact E. rewrite IH; reflexivity.
Qed.

(** [replace] at the first occurrence: the text before it is kept, the
    occurrence gives [new], and the replacement goes on behind it. *)
Lemma replace_first (s old new : str) (n : nat) :
  old <> [] -> find old s = Some n ->
  replace s old new
  = take n s ++ new ++ replace (drop (n + length old) s) old new.
Proof.
  intros Hne. rewrite !replace_nonempty by assumption.
  revert n; induction s as [|c s IH]; intros n.
  - rewrite find_unfold, startswith_nil_r by assumption. discriminate.
  - rewrite find_unfold. destruct (startswith old (c :: s)) eqn:E.
    + intros [= <-]. rewrite replace_from_hit by assumption. reflexivity.
    + destruct (find old s) as [m|] eqn:F; [|discriminate].
      intros [= <-]. rewrite replace_from_miss by exact E.
      rewrite (IH m eq_refl). reflexivity.
Qed.

(** [split] of a string without occurrence of the separator. *)
Lemma split_absent (s sep : str) :
  sep <> [] -> find sep s = None -> split s sep = [s].
Proof.
  intros Hne. rewrite split_cons.
  induction s as [|c s IH]; [reflexivity|].
  rewrite find_unfold. destruct (startswith sep (c :: s)) eqn:E; [discriminate|].
  destruct (find sep s) eqn:F; [discriminate|]. intros _.
  rewrite split_from_miss by exact E. simpl.
  specialize (IH eq_refl). injection IH as -> ->. reflexivity.
Qed.

(** [split] at the first occurrence of the separator. *)
Lemma split_first (s sep : str) (n : nat) :
  sep <> [] -> find sep s = Some n ->
  split s sep = take n s :: split (drop (n + length sep) s) sep.
Proof.
  intros Hne. rewrite split_cons.
  revert n; induction s as [|c s IH]; intros n.
  - rewrite find_unfold, startswith_nil_r by assumption. discriminate.
  - rewrite find_unfold. destruct (startswith sep (c :: s)) eqn:E.
    + intros [= <-]. rewrite split_from_hit by assumption. reflexivity.
    + destruct (find sep s) as [m|] eqn:F; [|discriminate].
      intros [= <-]. rewrite split_from_miss by exact E. simpl.
      specialize (IH m eq_refl). injection IH as -> ->. reflexivity.
Qed.

End StrFacts.

(* ===================================================================== *)
(** ** The string operations on examples *)
(* ===================================================================== *)

Example replace_all_occurrences :
  replace (lit "abcabc") (lit "bc") (lit "X") = lit "aXaX".
Proof. reflexivity. Qed.

Example replace_empty_pattern : replace (lit "abc") [] (lit "-") = lit "-a-b-c-".
Proof. reflexivity. Qed.

Example replace_does_not_overlap :
  replace (lit "aaaaa") (lit "aa") (lit "b") = lit "bba".
Proof. reflexivity. Qed.

Example split_names : split (lit "a, b, c") (lit ", ") = [lit "a"; lit "b"; lit "c"].
Proof. reflexivity. Qed.

Example split_empty_string : split [] (lit ", ") = [[]].
Proof. reflexivity. Qed.

Example split_keeps_empty_pieces :
  split (lit ",a,,b,") (lit ",") = [[]; lit "a"; []; lit "b"; []].
Proof. reflexivity. Qed.

Example title_case_venue (U : unicode) :
  title_case U (lit "arXiv preprint arXiv:2401.1") = lit "Arxiv Preprint Arxiv:2401.1".
Proof. reflexivity. Qed.

Example title_case_authors (U : unicode) :
  title_case U (lit "CS munoz, e del valle") = lit "Cs Munoz, E Del Valle".
Proof. reflexivity. Qed.

Example strip_both_ends : strip (lit "  a b  ") = lit "a b".
Proof. reflexivity. Qed.

Example of_int_digits :
  of_int 0 = lit "0" /\ of_int 2024 = lit "2024" /\ of_int (-5) = lit "-5".
Proof. repeat split. Qed.

Example format_names_single_token (U : unicode) :
  Scraper.format_names U (lit "Plato") = lit "P. ".
Proof. reflexivity. Qed.

Example format_names_empty (U : unicode) :
  Scraper.format_names U [] = lit ". ".
Proof. reflexivity. Qed.

(* ===================================================================== *)
(** ** The scraper *)
(* ===================================================================== *)

Section ScraperFacts.
Import Scraper.
Variable U : unicode.

(** The second piece of a split exists exactly when the separator occurs,
    and it is the text between the first occurrence and the next one. *)
Lemma split_second (s sep : str) :
  sep <> [] ->
  index (split s sep) 1 =
    if contains sep s then Ok (up_to_first sep (after_first sep s))
    else Raise IndexError.
Proof.
  intros Hne. rewrite contains_find. unfold after_first, up_to_first.
  destruct (find sep s) as [n|] eqn:F.
  - rewrite (split_first _ _ _ Hne F). set (rest := drop _ s).
    destruct (find sep rest) as [m|] eqn:G.
    + rewrite (split_first _ _ _ Hne G). reflexivity.
    + rewrite (split_absent _ _ Hne G). reflexivity.
  - rewrite (split_absent _ _ Hne F). reflexivity.
Qed.

(** What [scrape_paper] returns, step by step. *)
Lemma scrape_paper_unfold (name : str) (pseudonyms : list str) (e : entry)
    (ref : str) (y : Z) (jt au : str) :
  index (gs_gray e) 1 = Ok ref ->
  gsc_a_y e = Some y ->
  index (gsc_oci_value e) 2 = Ok jt ->
  index (gsc_oci_value e) 0 = Ok au ->
  scrape_paper U name pseudonyms e =
    if is_arxiv U (title_case U jt)
    then if contains (lit "arXiv:") ref
         then Ok {| title := gsc_a_at_text e;
                    authors := format_names U (title_case U au);
                    reference := lit "arXiv: "
                       ++ up_to_first (lit "arXiv:") (after_first (lit "arXiv:") ref);
                    journal := lit "arXiv"; year := y;
                    citations := match gsc_a_ac e with Some c => c | None => 0%Z end;
                    url := gsc_oci_title_link e;
                    citationsyears := gsc_oci_g_al e; isarxiv := true |}
         else Raise IndexError
    else Ok {| title := gsc_a_at_text e;
               authors := format_names U (title_case U au);
               reference := ref; journal := title_case U jt; year := y;
               citations := match gsc_a_ac e with Some c => c | None => 0%Z end;
               url := gsc_oci_title_link e;
               citationsyears := gsc_oci_g_al e; isarxiv := false |}.
Proof.
  intros H1 H2 H3 H4. unfold scrape_paper. rewrite H1, H2, H3, H4. cbn [bind].
  destruct (is_arxiv U (title_case U jt)); [|reflexivity].
  rewrite split_second by discriminate.
  destruct (contains (lit "arXiv:") ref); reflexivity.
Qed.

(** A returned row comes from an entry whose cells were all there. *)
Lemma scrape_paper_Ok (name : str) (pseudonyms : list str) (e : entry) (p : paper) :
  scrape_paper U name pseudonyms e = Ok p ->
  exists ref y jt au,
    index (gs_gray e) 1 = Ok ref /\ gsc_a_y e = Some y /\
    index (gsc_oci_value e) 2 = Ok jt /\ index (gsc_oci_value e) 0 = Ok au.
Proof.
  unfold scrape_paper.
  destruct (index (gs_gray e) 1) as [ref|] eqn:H1; [|discriminate].
  destruct (gsc_a_y e) as [y|] eqn:H2; [|discriminate].
  destruct (index (gsc_oci_value e) 2) as [jt|] eqn:H3; [|discriminate].
  destruct (index (gsc_oci_value e) 0) as [au|] eqn:H4; [|discriminate].
  intros _. exists ref, y, jt, au. auto.
Qed.

Lemma is_arxiv_literal : is_arxiv U (lit "arXiv") = true.
Proof. reflexivity. Qed.

Lemma scrape_papers_app (name : str) (pseudonyms : list str)
    (before after : list entry) (acc rows : list paper) :
  scrape_papers U name pseudonyms before acc = Ok rows ->
  scrape_papers U name pseudonyms (before ++ after) acc
  = scrape_papers U name pseudonyms after rows.
Proof.
  revert acc; induction before as [|b before IH]; intros acc; simpl.
  - intros [= ->]. reflexivity.
  - destruct (scrape_paper U name pseudonyms b); simpl; [apply IH | discriminate].
Qed.

Lemma scrape_papers_abort (name : str) (pseudonyms : list str)
    (before after : list entry) (e : entry) (acc : list paper) (x : exn) :
  scrape_paper U name pseudonyms e = Raise x ->
  exists x', scrape_papers U name pseudonyms (before ++ e :: after) acc = Raise x'.
Proof.
  intros He. revert acc; induction before as [|b before IH]; intros acc; simpl.
  - rewrite He. simpl. eauto.
  - destruct (scrape_paper U name pseudonyms b); simpl; eauto.
Qed.

End ScraperFacts.

(* ===================================================================== *)
(** ** ASCII text and the case mappings *)
(* ===================================================================== *)

Section AsciiCase.
Variable U : unicode.

Ltac case_bounds :=
  unfold ascii_upper, ascii_lower in *;
  unfold is_ascii, is_ascii_upper, is_ascii_lower in *;
  repeat match goal with
  | |- context [(?a <=? ?b)%N] => destruct (N.leb_spec a b)
  | |- context [(?a <? ?b)%N] => destruct (N.ltb_spec a b)
  | |- context [(?a =? ?b)%N] => destruct (N.eqb_spec a b)
  | H : context [(?a <? ?b)%N] |- _ => destruct (N.ltb_spec a b)
  end; simpl in *; try reflexivity; try discriminate; try lia.

Lemma ascii_lower_idem (c : char) : ascii_lower (ascii_lower c) = ascii_lower c.
Proof. case_bounds. Qed.

Lemma ascii_lower_upper (c : char) : ascii_lower (ascii_upper c) = ascii_lower c.
Proof. case_bounds. Qed.

Lemma is_ascii_lower_case (c : char) :
  is_ascii c = true -> is_ascii (ascii_lower c) = true.
Proof. intros H. case_bounds. Qed.

Lemma is_ascii_upper_case (c : char) :
  is_ascii c = true -> is_ascii (ascii_upper c) = true.
Proof. intros H. case_bounds. Qed.

Lemma lower_char_ascii (s : str) (i : nat) (c : char) :
  is_ascii c = true -> lower_char U s i c = [ascii_lower c].
Proof.
  intros H. unfold lower_char. rewrite H.
  destruct (N.eqb_spec c 931) as [->|]; [discriminate | reflexivity].
Qed.

Lemma lower_from_ascii (s : str) (i : nat) (r : str) :
  forallb is_ascii r = true -> lower_from U s i r = List.map ascii_lower r.
Proof.
  revert i; induction r as [|c r IH]; intros i H; simpl in *; [reflexivity|].
  apply andb_true_iff in H as [Hc Hr].
  rewrite lower_char_ascii, IH by assumption. reflexivity.
Qed.

Lemma title_from_ascii (s : str) (i : nat) (b : bool) (r : str) :
  forallb is_ascii r = true ->
  forallb is_ascii (title_from U s i b r) = true /\
  List.map ascii_lower (title_from U s i b r) = List.map ascii_lower r.
Proof.
  revert i b; induction r as [|c r IH]; intros i b H; simpl in *; [auto|].
  apply andb_true_iff in H as [Hc Hr].
  destruct (IH (S i) (cased U c) Hr) as [IH1 IH2].
  unfold title_char. rewrite lower_char_ascii, Hc by assumption.
  destruct b; simpl; rewrite IH1, IH2.
  - rewrite is_ascii_lower_case, ascii_lower_idem by assumption. auto.
  - rewrite is_ascii_upper_case, ascii_lower_upper by assumption. auto.
Qed.

(** On ASCII text, title-casing does not change the lower-cased text. *)
Lemma lower_title_case_ascii (s : str) :
  forallb is_ascii s = true -> lower U (title_case U s) = lower U s.
Proof.
  intros H. unfold lower, title_case.
  destruct (title_from_ascii s O false s H) as [H1 H2].
  rewrite !lower_from_ascii by assumption. exact H2.
Qed.

End AsciiCase.

(* ===================================================================== *)
(** ** The claims about the scraper *)
(* ===================================================================== *)

(** C8. [unify_pseudonyms] goes through the aliases in list order, each
    replacement working on the result of the one before; a replacement
    rewrites the occurrences of the alias from left to right (the text
    before the first occurrence is kept, the occurrence becomes the
    canonical name, and the replacement goes on behind it); an alias that
    does not occur leaves the string as it is; and on the example of the
    spec the result is [C. Sánchez Muñoz did X]. *)
Theorem unify_pseudonyms_replaces_in_order :
  (forall s name, Scraper.unify_pseudonyms s [] name = s) /\
  (forall s alias aliases name,
     Scraper.unify_pseudonyms s (alias :: aliases) name
     = Scraper.unify_pseudonyms (replace s alias name) aliases name) /\
  (forall s alias name n,
     alias <> [] -> find alias s = Some n ->
     replace s alias name
     = take n s ++ name ++ replace (drop (n + length alias) s) alias name) /\
  (forall s alias name, contains alias s = false -> replace s alias name = s) /\
  (forall s alias aliases name,
     contains alias s = false ->
     Scraper.unify_pseudonyms s (alias :: aliases) name
     = Scraper.unify_pseudonyms s aliases name) /\
  Scraper.unify_pseudonyms (lit "CS Munoz did X") [lit "CS Munoz"] sanchez_munoz
  = sanchez_munoz ++ lit " did X".
Proof.
  repeat split.
  - intros s alias name n Hne F. apply replace_first; assumption.
  - intros s alias name H. apply replace_absent, find_None_contains, H.
  - intros s alias aliases name H. simpl.
    rewrite replace_absent by (apply find_None_contains, H). reflexivity.
Qed.

Lemma unify_pseudonyms_replaces_in_order_witness :
  replace (lit "X by CS Munoz") (lit "CS Munoz") sanchez_munoz
  = lit "X by " ++ sanchez_munoz ++ replace [] (lit "CS Munoz") sanchez_munoz
  /\ Scraper.unify_pseudonyms (lit "X by CS Munoz") [lit "C Munoz"; lit "CS Munoz"]
       sanchez_munoz
     = Scraper.unify_pseudonyms (lit "X by CS Munoz") [lit "CS Munoz"] sanchez_munoz.
Proof.
  destruct unify_pseudonyms_replaces_in_order as (_ & _ & H & _ & H' & _).
  split.
  - exact (H (lit "X by CS Munoz") (lit "CS Munoz") sanchez_munoz 5%nat
             ltac:(discriminate) eq_refl).
  - exact (H' (lit "X by CS Munoz") (lit "C Munoz") [lit "CS Munoz"]
              sanchez_munoz eq_refl).
Defined.

(** C1, at an entry whose author line holds an alias.  The row that
    [getGSdata] stores has the authors formatted from the text of the page:
    the alias is still there, and the field differs from the formatting of
    the unified text. *)
Theorem scraped_authors_keep_the_alias (U : unicode) :
  let raw := title_case U (lit "C S Munoz, E Del Valle") in
  let aliases := [lit "C S Munoz"] in
  exists row,
    Scraper.getGSdata U sanchez_munoz aliases [alias_entry] = Ok [row] /\
    authors row = Scraper.format_names U raw /\
    authors row = lit "C. S Munoz, E. Del Valle" /\
    Scraper.format_names U (Scraper.unify_pseudonyms raw aliases sanchez_munoz)
    = lit "C... S" ++ [225%N] ++ lit "nchez Mu" ++ [241%N] ++ lit "oz, E. Del Valle" /\
    authors row
    <> Scraper.format_names U (Scraper.unify_pseudonyms raw aliases sanchez_munoz).
Proof.
  eexists. split; [reflexivity|]. repeat split. discriminate.
Qed.

(** The authors field of every row is the formatted text of the page. *)
Lemma scraped_authors (U : unicode) (name : str) (aliases : list str)
    (e : Scraper.entry) (row : paper) (au : str) :
  Scraper.scrape_paper U name aliases e = Ok row ->
  index (Scraper.gsc_oci_value e) 0 = Ok au ->
  authors row = Scraper.format_names U (title_case U au).
Proof.
  intros H Hau. destruct (scrape_paper_Ok U _ _ _ _ H) as (ref & y & jt & au' & H1 & H2 & H3 & H4).
  rewrite Hau in H4. injection H4 as <-.
  rewrite (scrape_paper_unfold U name aliases e ref y jt au H1 H2 H3 Hau) in H.
  destruct (Scraper.is_arxiv U (title_case U jt)).
  - destruct (contains (lit "arXiv:") ref); [|discriminate].
    injection H as <-. reflexivity.
  - injection H as <-. reflexivity.
Qed.

(** C4 as the spec words it fails: the reference of a preprint is not
    always the whole text behind the marker.  When the marker occurs twice
    the new reference stops at its second occurrence. *)
Lemma arxiv_reference_not_whole_rest :
  ~ (forall (U : unicode) name aliases e row ref jt,
       Scraper.scrape_paper U name aliases e = Ok row ->
       index (Scraper.gs_gray e) 1 = Ok ref ->
       index (Scraper.gsc_oci_value e) 2 = Ok jt ->
       (isarxiv row = true <->
        contains (lit "arxiv") (lower U (title_case U jt)) = true) /\
       (isarxiv row = true ->
        journal row = lit "arXiv" /\
        reference row = lit "arXiv: " ++ after_first (lit "arXiv:") ref)).
Proof.
  intros H.
  destruct (H ascii_only (lit "A. Smith") [] twice_entry _ _ _
              eq_refl eq_refl eq_refl) as [_ H2].
  destruct (H2 eq_refl) as [_ H3]. vm_compute in H3. discriminate.
Qed.

(** C4, amended.  A row is a preprint exactly when the lower-cased venue
    name holds [arxiv]; the venue name is the title-cased text of the page,
    which on ASCII text makes no difference.  A preprint gets the journal
    [arXiv] and the reference [arXiv: ] followed by the text between the
    first [arXiv:] of the original reference and the next one, up to the end
    when there is no other; every other row keeps both fields. *)
Theorem arxiv_classification_and_rewrite (U : unicode) (name : str)
    (aliases : list str) (e : Scraper.entry) (row : paper) (ref jt : str) :
  Scraper.scrape_paper U name aliases e = Ok row ->
  index (Scraper.gs_gray e) 1 = Ok ref ->
  index (Scraper.gsc_oci_value e) 2 = Ok jt ->
  (isarxiv row = true <->
   contains (lit "arxiv") (lower U (title_case U jt)) = true) /\
  (forallb is_ascii jt = true ->
   isarxiv row = contains (lit "arxiv") (lower U jt)) /\
  (isarxiv row = true ->
   journal row = lit "arXiv" /\
   contains (lit "arXiv:") ref = true /\
   reference row
   = lit "arXiv: " ++ up_to_first (lit "arXiv:") (after_first (lit "arXiv:") ref) /\
   (contains (lit "arXiv:") (after_first (lit "arXiv:") ref) = false ->
    reference row = lit "arXiv: " ++ after_first (lit "arXiv:") ref)) /\
  (isarxiv row = false ->
   journal row = title_case U jt /\ reference row = ref).
Proof.
  intros H Href Hjt.
  destruct (scrape_paper_Ok U _ _ _ _ H) as (ref' & y & jt' & au & H1 & H2 & H3 & H4).
  rewrite Href in H1. injection H1 as <-. rewrite Hjt in H3. injection H3 as <-.
  rewrite (scrape_paper_unfold U name aliases e ref y jt au Href H2 Hjt H4) in H.
  assert (Hflag : isarxiv row = Scraper.is_arxiv U (title_case U jt)).
  { destruct (Scraper.is_arxiv U (title_case U jt)).
    - destruct (contains (lit "arXiv:") ref); [|discriminate]. injection H as <-. reflexivity.
    - injection H as <-. reflexivity. }
  split; [rewrite Hflag; reflexivity|].
  split.
  { intros Hascii. rewrite Hflag. unfold Scraper.is_arxiv.
    rewrite lower_title_case_ascii by assumption. reflexivity. }
  destruct (Scraper.is_arxiv U (title_case U jt)).
  - destruct (contains (lit "arXiv:") ref) eqn:C; [|discriminate].
    injection H as <-. simpl. split; [|discriminate].
    intros _. repeat split.
    intros N. apply find_None_contains in N.
    unfold up_to_first. rewrite N. reflexivity.
  - injection H as <-. simpl. split; [discriminate|]. auto.
Qed.

Lemma arxiv_classification_and_rewrite_witness :
  exists row,
    Scraper.scrape_paper ascii_only (lit "A. Smith") [] arxiv_entry = Ok row /\
    journal row = lit "arXiv" /\
    reference row = lit "arXiv: 2401.00001, 2024".
Proof.
  eexists. split; [reflexivity|].
  destruct (arxiv_classification_and_rewrite ascii_only (lit "A. Smith") []
              arxiv_entry _ _ _ eq_refl eq_refl eq_refl) as (_ & _ & H & _).
  destruct (H eq_refl) as (Hj & _ & Hr & _). split; [exact Hj | exact Hr].
Defined.

(** C9. Running the test of the classification again on the venue field of
    a stored row gives the flag of the row; a preprint has the venue
    [arXiv], which the test accepts. *)
Theorem classification_idempotent (U : unicode) (name : str)
    (aliases : list str) (e : Scraper.entry) (row : paper) :
  Scraper.scrape_paper U name aliases e = Ok row ->
  Scraper.is_arxiv U (journal row) = isarxiv row /\
  (isarxiv row = true -> journal row = lit "arXiv") /\
  Scraper.is_arxiv U (lit "arXiv") = true.
Proof.
  intros H.
  destruct (scrape_paper_Ok U _ _ _ _ H) as (ref & y & jt & au & H1 & H2 & H3 & H4).
  rewrite (scrape_paper_unfold U name aliases e ref y jt au H1 H2 H3 H4) in H.
  destruct (Scraper.is_arxiv U (title_case U jt)) eqn:Hflag.
  - destruct (contains (lit "arXiv:") ref); [|discriminate].
    injection H as <-. simpl. auto using is_arxiv_literal.
  - injection H as <-. simpl. repeat split; [exact Hflag | discriminate].
Qed.

Lemma classification_idempotent_witness :
  exists row,
    Scraper.scrape_paper ascii_only (lit "A. Smith") [] arxiv_entry = Ok row /\
    Scraper.is_arxiv ascii_only (journal row) = isarxiv row.
Proof.
  eexists. split; [reflexivity|].
  apply (classification_idempotent ascii_only (lit "A. Smith") [] arxiv_entry _ eq_refl).
Defined.

(** C10. For an entry that is classified as a preprint, the rewrite of the
    reference succeeds exactly when the reference holds [arXiv:]: with it the
    index into the split is in range and the row is built; without it the
    index raises [IndexError], so does the construction of the row, and the
    run stops with an exception wherever the entry stands in the list (with
    [IndexError] when the entries before it went through). *)
Theorem arxiv_rewrite_needs_marker (U : unicode) (name : str)
    (aliases : list str) (e : Scraper.entry) (ref : str) (y : Z) (jt au : str) :
  index (Scraper.gs_gray e) 1 = Ok ref ->
  Scraper.gsc_a_y e = Some y ->
  index (Scraper.gsc_oci_value e) 2 = Ok jt ->
  index (Scraper.gsc_oci_value e) 0 = Ok au ->
  Scraper.is_arxiv U (title_case U jt) = true ->
  (contains (lit "arXiv:") ref = true ->
   (exists piece, index (split ref (lit "arXiv:")) 1 = Ok piece) /\
   (exists row, Scraper.scrape_paper U name aliases e = Ok row)) /\
  (contains (lit "arXiv:") ref = false ->
   index (split ref (lit "arXiv:")) 1 = Raise IndexError /\
   Scraper.scrape_paper U name aliases e = Raise IndexError /\
   (forall before after,
      exists x, Scraper.getGSdata U name aliases (before ++ e :: after) = Raise x) /\
   (forall before after rows,
      Scraper.getGSdata U name aliases before = Ok rows ->
      Scraper.getGSdata U name aliases (before ++ e :: after) = Raise IndexError)).
Proof.
  intros H1 H2 H3 H4 Hflag.
  pose proof (scrape_paper_unfold U name aliases e ref y jt au H1 H2 H3 H4) as Hs.
  rewrite Hflag in Hs.
  pose proof (split_second ref (lit "arXiv:") ltac:(discriminate)) as Hi.
  split; intros C; rewrite C in Hs, Hi.
  - split; eauto.
  - repeat split; try assumption.
    + intros before after. eapply scrape_papers_abort, Hs.
    + intros before after rows Hb. unfold Scraper.getGSdata in *.
      rewrite (scrape_papers_app U _ _ _ _ _ _ Hb). simpl. rewrite Hs. reflexivity.
Qed.

Lemma arxiv_rewrite_needs_marker_witness :
  Scraper.scrape_paper ascii_only (lit "A. Smith") [] unmarked_entry = Raise IndexError
  /\ Scraper.getGSdata ascii_only (lit "A. Smith") []
       [arxiv_entry; unmarked_entry; alias_entry] = Raise IndexError
  /\ exists row, Scraper.scrape_paper ascii_only (lit "A. Smith") [] arxiv_entry = Ok row.
Proof.
  destruct (arxiv_rewrite_needs_marker ascii_only (lit "A. Smith") [] unmarked_entry
              _ _ _ _ eq_refl eq_refl eq_refl eq_refl eq_refl) as [_ H].
  destruct (H eq_refl) as (_ & Hs & _ & Hrun).
  split; [exact Hs|]. split.
  - exact (Hrun [arxiv_entry] [alias_entry] _ eq_refl).
  - destruct (arxiv_rewrite_needs_marker ascii_only (lit "A. Smith") [] arxiv_entry
              _ _ _ _ eq_refl eq_refl eq_refl eq_refl eq_refl) as [H' _].
    exact (proj2 (H' eq_refl)).
Defined.

(* ===================================================================== *)
(** ** The formatting of names *)
(* ===================================================================== *)

Section FormatFacts.

Lemma fold_left_snoc {A B} (f : A -> B) (l : list A) (acc : list B) :
  fold_left (fun acc x => acc ++ [f x]) l acc = acc ++ List.map f l.
Proof.
  revert acc; induction l as [|x l IH]; intros acc; simpl.
  - rewrite app_nil_r. reflexivity.
  - rewrite IH, <- app_assoc. reflexivity.
Qed.

(** ['.'.join(t) + '.'] puts a period behind every character, and gives a
    lone period for the empty string. *)
Lemma join_periods (t : str) :
  join [46%N] (List.map (fun c => [c]) t) ++ [46%N]
  = match t with [] => [46%N] | _ :: _ => periods t end.
Proof.
  destruct t as [|c t]; [reflexivity|].
  revert c; induction t as [|d t IH]; intros c; [reflexivity|].
  change (join [46%N] (List.map (fun c => [c]) (c :: d :: t)))
    with ([c] ++ [46%N] ++ join [46%N] (List.map (fun c => [c]) (d :: t))).
  rewrite <- !app_assoc, IH. reflexivity.
Qed.

Lemma startswith_cons (x : char) (p : str) (y : char) (s : str) :
  startswith (x :: p) (y :: s) = char_eqb x y && startswith p s.
Proof. reflexivity. Qed.

Lemma startswith_nil (s : str) : startswith [] s = true.
Proof. destruct s; reflexivity. Qed.

Lemma contains_cons (p : str) (c : char) (s : str) :
  contains p (c :: s) = startswith p (c :: s) || contains p s.
Proof. reflexivity. Qed.

(** In a name followed by the separator [", "], the first separator found
    is the one behind the name, when the name holds none. *)
Lemma find_separator_after (n rest : str) :
  contains [44%N; 32%N] n = false ->
  find [44%N; 32%N] (n ++ [44%N; 32%N] ++ rest) = Some (length n).
Proof.
  induction n as [|c n IH]; intros H; [reflexivity|].
  rewrite contains_cons in H. apply orb_false_iff in H as [Hs Hc].
  rewrite find_unfold.
  change ((c :: n) ++ [44%N; 32%N] ++ rest) with (c :: (n ++ [44%N; 32%N] ++ rest)).
  assert (E : startswith [44%N; 32%N] (c :: (n ++ [44%N; 32%N] ++ rest)) = false).
  { rewrite startswith_cons in *.
    destruct (char_eqb 44%N c); [|reflexivity].
    rewrite andb_true_l in *.
    destruct n as [|d n].
    - reflexivity.
    - change ((d :: n) ++ [44%N; 32%N] ++ rest) with (d :: (n ++ [44%N; 32%N] ++ rest)).
      rewrite startswith_cons, startswith_nil in *. exact Hs. }
  rewrite E, (IH Hc). reflexivity.
Qed.

(** Splitting a joined list of names gives the names back. *)
Lemma split_join_names (names : list str) :
  names <> [] ->
  forallb (fun n => negb (contains (lit ", ") n)) names = true ->
  split (join (lit ", ") names) (lit ", ") = names.
Proof.
  change (lit ", ") with [44%N; 32%N].
  destruct names as [|n names]; [congruence|]. intros _.
  revert n; induction names as [|m names IH]; intros n H.
  - simpl in H. rewrite andb_true_r in H. apply negb_true_iff in H.
    simpl join. apply split_absent; [discriminate|].
    apply find_None_contains, H.
  - change (forallb _ (n :: m :: names))
      with (negb (contains [44%N; 32%N] n)
            && forallb (fun n => negb (contains [44%N; 32%N] n)) (m :: names)) in H.
    apply andb_true_iff in H as [Hn Hrest]. apply negb_true_iff in Hn.
    change (join [44%N; 32%N] (n :: m :: names))
      with (n ++ [44%N; 32%N] ++ join [44%N; 32%N] (m :: names)).
    rewrite (split_first _ _ (length n)); [|discriminate|apply find_separator_after, Hn].
    rewrite take_app_length. f_equal.
    rewrite <- drop_drop, drop_app_length.
    apply IH, Hrest.
Qed.

Lemma find_char_none (c : char) (t : str) :
  has_char c t = false -> find [c] t = None.
Proof.
  induction t as [|d t IH]; intros H; [reflexivity|].
  simpl in H. apply orb_false_iff in H as [Hd Ht].
  rewrite find_unfold, startswith_cons, Hd, (IH Ht). reflexivity.
Qed.

Lemma find_char_after (c : char) (t rest : str) :
  has_char c t = false -> find [c] (t ++ c :: rest) = Some (length t).
Proof.
  induction t as [|d t IH]; intros H.
  - rewrite app_nil_l, find_unfold, startswith_cons, startswith_nil.
    unfold char_eqb. rewrite N.eqb_refl. reflexivity.
  - simpl in H. apply orb_false_iff in H as [Hd Ht].
    rewrite <- app_comm_cons, find_unfold, startswith_cons, Hd, (IH Ht).
    reflexivity.
Qed.

(** Splitting tokens joined by a character none of them holds gives the
    tokens back. *)
Lemma split_join_tokens (c : char) (tokens : list str) :
  tokens <> [] ->
  forallb (fun t => negb (has_char c t)) tokens = true ->
  split (join [c] tokens) [c] = tokens.
Proof.
  destruct tokens as [|t tokens]; [congruence|]. intros _.
  revert t; induction tokens as [|t' tokens IH]; intros t H.
  - simpl in H. rewrite andb_true_r in H. apply negb_true_iff in H.
    apply split_absent; [discriminate|]. apply find_char_none, H.
  - change (forallb _ (t :: t' :: tokens))
      with (negb (has_char c t)
            && forallb (fun t => negb (has_char c t)) (t' :: tokens)) in H.
    apply andb_true_iff in H as [Ht Hrest]. apply negb_true_iff in Ht.
    change (join [c] (t :: t' :: tokens))
      with (t ++ [c] ++ join [c] (t' :: tokens)).
    rewrite (split_first _ _ (length t));
      [|discriminate|apply find_char_after, Ht].
    rewrite take_app_length. f_equal.
    rewrite <- drop_drop, drop_app_length. apply IH, Hrest.
Qed.

Lemma has_char_app (c : char) (a b : str) :
  has_char c (a ++ b) = has_char c a || has_char c b.
Proof. apply existsb_app. Qed.

Lemma has_char_join (c sep : char) (tokens : list str) :
  char_eqb c sep = false ->
  forallb (fun t => negb (has_char c t)) tokens = true ->
  has_char c (join [sep] tokens) = false.
Proof.
  intros Hsep. destruct tokens as [|t tokens]; [reflexivity|].
  revert t; induction tokens as [|t' tokens IH]; intros t H.
  - simpl in H. rewrite andb_true_r in H. apply negb_true_iff, H.
  - change (forallb _ (t :: t' :: tokens))
      with (negb (has_char c t)
            && forallb (fun t => negb (has_char c t)) (t' :: tokens)) in H.
    apply andb_true_iff in H as [Ht Hrest]. apply negb_true_iff in Ht.
    change (join [sep] (t :: t' :: tokens))
      with (t ++ [sep] ++ join [sep] (t' :: tokens)).
    rewrite !has_char_app, Ht, (IH _ Hrest). simpl. rewrite Hsep. reflexivity.
Qed.

(** A string without the first character of [p] does not hold [p]. *)
Lemma contains_without_first (x : char) (p s : str) :
  has_char x s = false -> contains (x :: p) s = false.
Proof.
  induction s as [|d s IH]; intros H; [reflexivity|].
  simpl in H. apply orb_false_iff in H as [Hd Hs].
  rewrite contains_cons, startswith_cons, Hd, (IH Hs). reflexivity.
Qed.

End FormatFacts.

(** C5 as the spec words it fails: the tokens of a name are not what
    stands between white space.  [format_names] cuts a name at the space
    character only, so a name written with a tabulator is one token and
    loses its surname, and a name that begins with a space has an empty
    first token, which gives a lone period.  On the two names of the spec
    the wording and the code agree. *)
Lemma format_names_not_by_white_space :
  Scraper.format_names ascii_only (lit "AB Smith")
  = format_names_as_worded ascii_only (lit "AB Smith") /\
  Scraper.format_names ascii_only (lit "John Smith")
  = format_names_as_worded ascii_only (lit "John Smith") /\
  Scraper.format_names ascii_only john_tab_smith = lit "J. " /\
  format_names_as_worded ascii_only john_tab_smith = lit "J. Smith" /\
  Scraper.format_names ascii_only (lit "John  Smith") = lit "J.  Smith" /\
  format_names_as_worded ascii_only (lit "John  Smith") = lit "J. Smith" /\
  Scraper.format_names ascii_only (lit " Smith") = lit ". Smith" /\
  format_names_as_worded ascii_only (lit " Smith") = lit "S. " /\
  ~ (forall (U : unicode) (name_string : str),
       Scraper.format_names U name_string
       = format_names_as_worded U name_string).
Proof.
  repeat (split; [reflexivity|]).
  intros H. specialize (H ascii_only john_tab_smith).
  vm_compute in H. discriminate.
Qed.

(** C5, amended.  [format_names] formats the names between the separators
    [", "] one by one and joins the results with [", "], in the same order:
    a joined list of n names gives the n formatted names.  One name is
    formatted from its pieces between single space characters: the first
    piece, cut to its first character when it has three or more, is
    upper-cased and gets a period behind every character (a lone period
    when it is empty), and the other pieces, joined by spaces, follow it
    after a space.  [AB Smith] gives [A.B. Smith] and [John Smith] gives
    [J. Smith]. *)
Theorem format_names_formats_each_name (U : unicode) :
  (forall name,
     let tokens := split name (lit " ") in
     let token := hd [] tokens in
     let initials :=
       upper U (if (3 <=? length token)%nat then take 1 token else token) in
     Scraper.format_name U name
     = match initials with [] => lit "." | _ :: _ => periods initials end
       ++ lit " " ++ join (lit " ") (tl tokens)) /\
  (forall name_string,
     Scraper.format_names U name_string
     = join (lit ", ")
         (List.map (Scraper.format_name U) (split name_string (lit ", ")))) /\
  (forall names,
     names <> [] ->
     forallb (fun n => negb (contains (lit ", ") n)) names = true ->
     Scraper.format_names U (join (lit ", ") names)
     = join (lit ", ") (List.map (Scraper.format_name U) names)) /\
  Scraper.format_names U (lit "AB Smith") = lit "A.B. Smith" /\
  Scraper.format_names U (lit "John Smith") = lit "J. Smith" /\
  Scraper.format_names U (lit "AB Smith, John Smith, c munoz")
  = lit "A.B. Smith, J. Smith, C. munoz".
Proof.
  assert (Hall : forall name_string,
     Scraper.format_names U name_string
     = join (lit ", ")
         (List.map (Scraper.format_name U) (split name_string (lit ", ")))).
  { intros s. unfold Scraper.format_names. rewrite fold_left_snoc. reflexivity. }
  split; [|split; [exact Hall|split; [|repeat split]]].
  - intros name tokens token initials. unfold Scraper.format_name.
    fold tokens. fold token. fold initials.
    change (lit ".") with [46%N]. rewrite join_periods. reflexivity.
  - intros names Hne Hsep. rewrite Hall, split_join_names by assumption.
    reflexivity.
Qed.

Lemma format_names_formats_each_name_witness :
  Scraper.format_names ascii_only (join (lit ", ") [lit "AB Smith"; lit "John Smith"])
  = join (lit ", ")
      (List.map (Scraper.format_name ascii_only) [lit "AB Smith"; lit "John Smith"]).
Proof.
  destruct (format_names_formats_each_name ascii_only) as (_ & _ & H & _).
  exact (H [lit "AB Smith"; lit "John Smith"] ltac:(discriminate) eq_refl).
Defined.

(* ===================================================================== *)
(** ** The h-index *)
(* ===================================================================== *)

Section HIndexFacts.
Import Reporter.

#[local] Instance Zge_total : Total Z.ge.
Proof. intros x y. lia. Qed.

#[local] Instance Zge_trans : Transitive Z.ge.
Proof. intros x y z. lia. Qed.

Lemma sorted_reverse_sorted (l : list Z) : StronglySorted Z.ge (sorted_reverse l).
Proof. apply StronglySorted_merge_sort; typeclasses eauto. Qed.

Lemma sorted_reverse_perm (l : list Z) : Permutation (sorted_reverse l) l.
Proof. apply merge_sort_Permutation. Qed.

(** Behind the head of a descending list nothing is larger than the head. *)
Lemma sorted_nth_le_head (c : Z) (s : list Z) (k : nat) :
  StronglySorted Z.ge (c :: s) -> (k < length (c :: s))%nat ->
  (nth k (c :: s) 0 <= c)%Z.
Proof.
  intros Hs Hk. destruct k as [|k]; simpl; [lia|].
  apply StronglySorted_inv in Hs as [_ Hall].
  rewrite List.Forall_forall in Hall. simpl in Hk.
  assert (Hk' : (k < length s)%nat) by lia.
  specialize (Hall (nth k s 0%Z) (nth_In s 0%Z Hk')). lia.
Qed.

(** The loop from index [i] on, entered with [h_index = i]: it returns the
    index behind the longest run of positions that pass the test, and on a
    descending list no position from there on passes. *)
Lemma h_index_loop_spec (s : list Z) (i : Z) :
  StronglySorted Z.ge s ->
  let h := h_index_loop i i s in
  (i <= h <= i + Z.of_nat (length s))%Z /\
  (forall k : nat, (i + Z.of_nat k < h)%Z ->
     (k < length s)%nat /\ (i + Z.of_nat k + 1 <= nth k s 0)%Z) /\
  (forall k : nat, (k < length s)%nat -> (h <= i + Z.of_nat k)%Z ->
     (nth k s 0 < i + Z.of_nat k + 1)%Z).
Proof.
  revert i; induction s as [|c s IH]; intros i Hs; simpl.
  - repeat split; simpl in *; lia.
  - destruct (Z.leb_spec (i + 1) c) as [Hc|Hc].
    + apply StronglySorted_inv in Hs as Hs'. destruct Hs' as [Hs' _].
      destruct (IH (i + 1)%Z Hs') as (B & P & Q).
      split; [lia|]. split.
      * intros [|k] Hk; [split; [simpl; lia | simpl; lia]|].
        destruct (P k ltac:(lia)) as [K1 K2]. simpl. split; lia.
      * intros [|k] Hk Hh; [lia|]. simpl.
        specialize (Q k ltac:(simpl in Hk; lia) ltac:(lia)). lia.
    + split; [lia|]. split; [intros k Hk; lia|].
      intros k Hk _. pose proof (sorted_nth_le_head c s k Hs Hk). simpl in *. lia.
Qed.

End HIndexFacts.

(** C2. The h-index the report computes from a list of citation counts is
    the largest rank, counted from 1 in the list sorted in descending order,
    whose count is at least the rank, and 0 when no rank is: the sorted list
    is a descending rearrangement of the counts, the h-index is 0 or a good
    rank, and every good rank is at most the h-index.  The lists
    [10, 8, 5, 4, 3], [0, 0, 0] and [] give 4, 0 and 0. *)
Theorem h_index_is_largest_good_rank (citation_counts : list Z) :
  let s := Reporter.sorted_reverse citation_counts in
  let h := Reporter.h_index_of citation_counts in
  Permutation s citation_counts /\
  StronglySorted Z.ge s /\
  (h = 0%Z \/ rank_ok s h) /\
  (forall r, rank_ok s r -> (r <= h)%Z) /\
  Reporter.h_index_of [10; 8; 5; 4; 3]%Z = 4%Z /\
  Reporter.h_index_of [0; 0; 0]%Z = 0%Z /\
  Reporter.h_index_of [] = 0%Z.
Proof.
  intros s h.
  pose proof (sorted_reverse_sorted citation_counts) as Hs. fold s in Hs.
  destruct (h_index_loop_spec s 0%Z Hs) as (B & P & Q).
  change (Reporter.h_index_loop 0 0 s) with h in *.
  split; [apply sorted_reverse_perm|]. split; [exact Hs|].
  split; [|split; [|repeat split]].
  - destruct (Z.eq_dec h 0%Z) as [?|Hh]; [left; assumption|right].
    destruct (P (Z.to_nat (h - 1)) ltac:(lia)) as [K1 K2].
    unfold rank_ok. split; lia.
  - intros r [[R1 R2] R3].
    destruct (Z_le_gt_dec r h) as [?|Hgt]; [assumption|exfalso].
    specialize (Q (Z.to_nat (r - 1)) ltac:(lia) ltac:(lia)). lia.
Qed.

Lemma h_index_is_largest_good_rank_witness :
  rank_ok (Reporter.sorted_reverse [3; 10; 4; 8; 5]%Z) 4%Z /\
  (4 <= Reporter.h_index_of [3; 10; 4; 8; 5]%Z)%Z.
Proof.
  assert (R : rank_ok (Reporter.sorted_reverse [3; 10; 4; 8; 5]%Z) 4%Z).
  { unfold rank_ok. vm_compute. repeat split; discriminate. }
  split; [exact R|].
  destruct (h_index_is_largest_good_rank [3; 10; 4; 8; 5]%Z) as (_ & _ & _ & H & _).
  exact (H 4%Z R).
Defined.

(* ===================================================================== *)
(** ** The loops of the report *)
(* ===================================================================== *)

Section ReporterFacts.
Import Reporter.
Variable U : unicode.
Variable name : str.

Lemma count_rows_cons (P : paper -> bool) (row : paper) (rows : list paper) :
  count_rows P (row :: rows) = (Z.b2z (P row) + count_rows P rows)%Z.
Proof.
  unfold count_rows. simpl. destruct (P row); simpl length; simpl Z.b2z; lia.
Qed.

Lemma count_rows_nil (P : paper -> bool) : count_rows P [] = 0%Z.
Proof. reflexivity. Qed.

Lemma count_rows_filter (P Q : paper -> bool) (rows : list paper) :
  count_rows Q (List.filter P rows) = count_rows (fun row => P row && Q row) rows.
Proof.
  induction rows as [|row rows IH]; [reflexivity|].
  simpl List.filter. destruct (P row) eqn:E.
  - rewrite !count_rows_cons, IH, E. reflexivity.
  - rewrite count_rows_cons, IH, E. simpl. reflexivity.
Qed.

Lemma count_rows_all (rows : list paper) :
  count_rows (fun _ => true) rows = Z.of_nat (length rows).
Proof.
  unfold count_rows. f_equal. f_equal.
  induction rows as [|row rows IH]; simpl; [reflexivity | f_equal; exact IH].
Qed.

(** The more rows a test accepts, the larger the count. *)
Lemma count_rows_le (P Q : paper -> bool) (rows : list paper) :
  (forall row, P row = true -> Q row = true) ->
  (count_rows P rows <= count_rows Q rows)%Z.
Proof.
  intros H. induction rows as [|row rows IH]; [reflexivity|].
  rewrite !count_rows_cons. specialize (H row).
  destruct (P row), (Q row); simpl; first [lia | discriminate (H eq_refl)].
Qed.

Lemma peer_entry_item (t a u r : str) (y : Z) :
  peer_entry t (bolden a name) u r y = item_text name t a u r y.
Proof.
  unfold peer_entry, item_text, bolden. rewrite <- !app_assoc. reflexivity.
Qed.

Lemma preprint_entry_item (t a u r : str) (y : Z) :
  preprint_entry t (bolden a name) u r y = item_text name t a u r y.
Proof.
  unfold preprint_entry, item_text, bolden. rewrite <- !app_assoc. reflexivity.
Qed.

(** One turn of the first loop, field by field. *)
Lemma peer_step_fields (st : state) (row : paper) :
  let st' := peer_step U name st row in
  peer_reviewed_count st' = (peer_reviewed_count st + 1)%Z /\
  first_author_count st'
  = (first_author_count st + Z.b2z (is_first_author name row))%Z /\
  last_author_count st'
  = (last_author_count st + Z.b2z (is_last_author name row))%Z /\
  total_citations st' = (total_citations st + citations row)%Z /\
  citation_counts st' = citation_counts st ++ [citations row] /\
  latex_snippet st'
  = latex_snippet st
    ++ item_text name (title row) (authors row) (url row)
         (title_case U (reference row)) (year row) /\
  journal_counts st'
  = incr_if_in incr_count (lower U (journal row))
      ((if is_last_author name row
        then incr_if_in incr_last_author (lower U (journal row)) else id)
         ((if is_first_author name row
           then incr_if_in incr_first_author (lower U (journal row)) else id)
            (journal_counts st))).
Proof.
  unfold peer_step.
  destruct (is_first_author name row), (is_last_author name row); simpl;
    rewrite peer_entry_item, ?Z.add_0_r; repeat split.
Qed.

Lemma lookup_incr_if_in (f : jcount -> jcount) (key : str)
    (d : gmap str jcount) (k : str) :
  incr_if_in f key d !! k
  = if decide (key = k) then f <$> d !! k else d !! k.
Proof.
  unfold incr_if_in. destruct (decide (key = k)) as [->|Hne].
  - destruct (d !! k) eqn:E; [rewrite lookup_insert_eq | rewrite E]; reflexivity.
  - destruct (d !! key); [rewrite lookup_insert_ne by assumption|]; reflexivity.
Qed.

Lemma in_journal_decide (key : str) (row : paper) :
  in_journal U key row = if decide (lower U (journal row) = key) then true else false.
Proof.
  unfold in_journal. destruct (decide _) as [E|E].
  - apply str_eqb_eq, E.
  - destruct (Str.eqb _ _) eqn:B; [|reflexivity]. apply str_eqb_eq in B. contradiction.
Qed.

Lemma peer_step_lookup (st : state) (row : paper) (k : str) :
  journal_counts (peer_step U name st row) !! k
  = (fun c => jc_add c (key_tally U name [row] k)) <$> journal_counts st !! k.
Proof.
  destruct (peer_step_fields st row) as (_ & _ & _ & _ & _ & _ & ->).
  unfold key_tally. rewrite !count_rows_cons, !count_rows_nil, in_journal_decide.
  rewrite lookup_incr_if_in.
  destruct (is_first_author name row), (is_last_author name row);
    unfold id; rewrite ?lookup_incr_if_in;
    destruct (decide (lower U (journal row) = k));
    destruct (journal_counts st !! k) as [[a b c]|]; simpl; try reflexivity;
    unfold jc_add, incr_count, incr_first_author, incr_last_author; simpl;
    rewrite ?Z.add_0_r; reflexivity.
Qed.

Lemma key_tally_cons (row : paper) (rows : list paper) (k : str) :
  key_tally U name (row :: rows) k
  = jc_add (key_tally U name [row] k) (key_tally U name rows k).
Proof.
  unfold key_tally, jc_add. simpl.
  rewrite !count_rows_cons, !count_rows_nil, !Z.add_0_r. reflexivity.
Qed.

Lemma jc_add_assoc (a b c : jcount) : jc_add (jc_add a b) c = jc_add a (jc_add b c).
Proof. unfold jc_add. simpl. f_equal; lia. Qed.

Lemma jc_add_zero_l (a : jcount) : jc_add jzero a = a.
Proof. destruct a. reflexivity. Qed.

(** The first loop, field by field. *)
Lemma peer_fold_fields (rows : list paper) (st : state) :
  let st' := fold_left (peer_step U name) rows st in
  peer_reviewed_count st' = (peer_reviewed_count st + Z.of_nat (length rows))%Z /\
  first_author_count st'
  = (first_author_count st + count_rows (is_first_author name) rows)%Z /\
  last_author_count st'
  = (last_author_count st + count_rows (is_last_author name) rows)%Z /\
  total_citations st' = (total_citations st + sum_citations rows)%Z /\
  citation_counts st' = citation_counts st ++ List.map citations rows /\
  latex_snippet st'
  = latex_snippet st
    ++ concat (List.map (fun row =>
         item_text name (title row) (authors row) (url row)
           (title_case U (reference row)) (year row)) rows) /\
  forall k, journal_counts st' !! k
            = (fun c => jc_add c (key_tally U name rows k)) <$> journal_counts st !! k.
Proof.
  revert st; induction rows as [|row rows IH]; intros st; cbv zeta in *.
  - simpl. rewrite !count_rows_nil, !Z.add_0_r, !app_nil_r.
    repeat (split; [reflexivity|]).
    intros k. destruct (journal_counts st !! k) as [[a b c]|]; simpl; [|reflexivity].
    unfold jc_add, key_tally. simpl. rewrite !count_rows_nil, !Z.add_0_r. reflexivity.
  - simpl fold_left.
    destruct (IH (peer_step U name st row)) as (-> & -> & -> & -> & -> & -> & Hk).
    destruct (peer_step_fields st row) as (-> & -> & -> & -> & -> & -> & _).
    rewrite !count_rows_cons, !map_cons, concat_cons, <- !app_assoc.
    change (sum_citations (row :: rows))
      with (citations row + sum_citations rows)%Z.
    change (length (row :: rows)) with (S (length rows)).
    do 4 (split; [lia|]). do 2 (split; [reflexivity|]).
    intros k. rewrite Hk, peer_step_lookup, (key_tally_cons row rows k).
    destruct (journal_counts st !! k); simpl; [|reflexivity].
    rewrite jc_add_assoc. reflexivity.
Qed.

(** The dictionary of line 72 holds zeros at the lower-cased name of every
    tracked journal. *)
Lemma init_journal_counts_lookup (journals : list str) (d : gmap str jcount)
    (k : str) :
  In k (List.map (lower U) journals) \/ d !! k = Some jzero ->
  fold_left (fun d journal => <[lower U journal := jzero]> d) journals d !! k
  = Some jzero.
Proof.
  revert d; induction journals as [|j journals IH]; intros d H; simpl in *.
  - destruct H as [[]|H]; exact H.
  - apply IH. destruct H as [[E|H]|H].
    + right. rewrite E. apply lookup_insert_eq.
    + left. exact H.
    + right. destruct (decide (lower U j = k)) as [->|Hne].
      * apply lookup_insert_eq.
      * rewrite lookup_insert_ne by assumption. exact H.
Qed.

Lemma peer_rows_filter (df_papers : list paper) :
  peer_rows df_papers = List.filter peer_reviewed df_papers.
Proof. reflexivity. Qed.

(** The counters of a tracked journal after the first loop. *)
Lemma peer_loop_lookup (journals : list str) (df_papers : list paper)
    (journal : str) :
  In journal journals ->
  journal_counts (peer_loop U name journals df_papers) !! lower U journal
  = Some (venue_tally U name df_papers journal).
Proof.
  intros Hin. unfold peer_loop.
  destruct (peer_fold_fields (peer_rows df_papers) (init_state U journals))
    as (_ & _ & _ & _ & _ & _ & Hk).
  rewrite Hk. unfold init_state at 1. cbn [journal_counts].
  unfold init_journal_counts. rewrite init_journal_counts_lookup.
  - cbn [fmap option_fmap option_map]. rewrite jc_add_zero_l.
    unfold key_tally, venue_tally. rewrite peer_rows_filter, !count_rows_filter.
    f_equal. f_equal.
    + unfold count_rows. f_equal. f_equal. apply filter_ext.
      intros row. rewrite andb_assoc. reflexivity.
    + unfold count_rows. f_equal. f_equal. apply filter_ext.
      intros row. rewrite andb_assoc. reflexivity.
  - left. apply in_map, Hin.
Qed.

Lemma journal_phrase_venue (journal : str) (c : jcount) :
  journal_phrase journal c
  = venue_phrase journal (count c) (first_author c) (last_author c).
Proof.
  unfold journal_phrase, venue_phrase.
  destruct (0 <? first_author c)%Z, (0 <? last_author c)%Z; simpl andb; cbv iota;
    rewrite <- ?app_assoc, ?app_nil_r; reflexivity.
Qed.

(** The loop of the journal report, for a dictionary that holds the
    counters [T journal] of every journal of the list. *)
Lemma journal_report_spec (d : gmap str jcount) (T : str -> jcount)
    (journals : list str) (report : list str) :
  (forall journal, In journal journals -> d !! lower U journal = Some (T journal)) ->
  journal_report U d journals report
  = Ok (report
        ++ List.map (fun journal =>
             venue_phrase journal (count (T journal)) (first_author (T journal))
               (last_author (T journal)))
             (List.filter (fun journal => (0 <? count (T journal))%Z) journals)).
Proof.
  revert report; induction journals as [|j journals IH]; intros report H.
  - simpl. rewrite app_nil_r. reflexivity.
  - simpl journal_report. rewrite (H j (or_introl eq_refl)). cbn [bind].
    simpl List.filter.
    destruct (0 <? count (T j))%Z.
    + rewrite IH by (intros; apply H; right; assumption).
      rewrite map_cons, journal_phrase_venue, <- app_assoc. reflexivity.
    + apply IH. intros; apply H; right; assumption.
Qed.

(** The two lists of the document. *)
Lemma papers_list_items (journals : list str) (df_papers : list paper) :
  papers_list U name journals df_papers
  = two_lists
      (concat (List.map (fun row =>
         item_text name (title row) (authors row) (url row)
           (title_case U (reference row)) (year row))
         (List.filter peer_reviewed df_papers)))
      (concat (List.map (fun row =>
         item_text name (title row) (authors row) (url row)
           (reference row) (year row))
         (List.filter isarxiv df_papers))).
Proof.
  unfold papers_list, peer_loop.
  destruct (peer_fold_fields (peer_rows df_papers) (init_state U journals))
    as (_ & _ & _ & _ & _ & -> & _).
  cbn [latex_snippet init_state]. rewrite peer_rows_filter.
  set (peers := concat _).
  assert (Hpre : forall rows acc,
    fold_left (preprint_step name) rows acc
    = acc ++ concat (List.map (fun row =>
         item_text name (title row) (authors row) (url row)
           (reference row) (year row)) rows)).
  { induction rows as [|row rows IH]; intros acc.
    - simpl. rewrite app_nil_r. reflexivity.
    - simpl fold_left. rewrite IH. unfold preprint_step at 1.
      rewrite preprint_entry_item, map_cons, concat_cons, <- app_assoc.
      reflexivity. }
  rewrite Hpre. unfold preprint_rows, two_lists.
  rewrite <- !app_assoc. reflexivity.
Qed.

Lemma two_lists_inj_l (a a' b : str) :
  two_lists a b = two_lists a' b -> a = a'.
Proof.
  unfold two_lists. intros H.
  repeat apply app_inv_head in H. apply app_inv_tail in H. exact H.
Qed.

Lemma two_lists_inj_r (a b b' : str) :
  two_lists a b = two_lists a b' -> b = b'.
Proof.
  unfold two_lists. intros H.
  repeat apply app_inv_head in H. apply app_inv_tail in H. exact H.
Qed.

End ReporterFacts.

Lemma startswith_app_l (p a b : str) :
  startswith p a = true -> startswith p (a ++ b) = true.
Proof.
  revert a; induction p as [|x p IH]; intros a H; [apply startswith_nil|].
  destruct a as [|y a]; [discriminate|].
  rewrite <- app_comm_cons, startswith_cons in *.
  apply andb_true_iff in H as [-> H]. rewrite (IH _ H). reflexivity.
Qed.

Lemma contains_app_l (p a b : str) :
  contains p a = true -> contains p (a ++ b) = true.
Proof.
  induction a as [|c a IH]; intros H.
  - simpl in H. rewrite orb_false_r in H.
    destruct p; [|discriminate]. destruct b; reflexivity.
  - rewrite <- app_comm_cons, contains_cons in *.
    apply orb_true_iff in H as [H|H]; apply orb_true_iff.
    + left. rewrite app_comm_cons. apply startswith_app_l, H.
    + right. apply IH, H.
Qed.


Lemma strip_leading_space (e : str) : strip (32%N :: e) = strip e.
Proof. reflexivity. Qed.

Lemma join_head (sep : str) (c : char) (x : str) (l : list str) :
  join sep ((c :: x) :: l) = c :: join sep (x :: l).
Proof. destruct l; reflexivity. Qed.

Lemma join_comma_space (e : str) (rest : list str) :
  join (lit ", ") (e :: rest) = join [44%N] (e :: List.map (cons 32%N) rest).
Proof.
  revert e; induction rest as [|e' rest IH]; intros e; [reflexivity|].
  change (join (lit ", ") (e :: e' :: rest))
    with (e ++ [44%N] ++ 32%N :: join (lit ", ") (e' :: rest)).
  rewrite IH, map_cons.
  change (join [44%N] (e :: (32%N :: e') :: List.map (cons 32%N) rest))
    with (e ++ [44%N] ++ join [44%N] ((32%N :: e') :: List.map (cons 32%N) rest)).
  rewrite join_head. reflexivity.
Qed.

(** The author list of a string of entries joined by [", "]: the entries,
    stripped. *)
Lemma authors_list_join (entries : list str) :
  entries <> [] ->
  forallb (fun e => negb (has_char 44%N e)) entries = true ->
  Reporter.authors_list (join (lit ", ") entries) = List.map strip entries.
Proof.
  destruct entries as [|e rest]; [congruence|]. intros _ H.
  unfold Reporter.authors_list. rewrite join_comma_space.
  change (lit ",") with [44%N].
  rewrite split_join_tokens; [|discriminate|].
  - rewrite !map_cons, map_map. f_equal.
  - change (forallb (fun e => negb (has_char 44%N e)) (e :: rest))
      with (negb (has_char 44%N e)
            && forallb (fun e => negb (has_char 44%N e)) rest) in H.
    apply andb_true_iff in H as [He Hrest].
    change (forallb _ (e :: List.map (cons 32%N) rest))
      with (negb (has_char 44%N e)
            && forallb (fun t => negb (has_char 44%N t)) (List.map (cons 32%N) rest)).
    rewrite He, andb_true_l. rewrite forallb_forall in *. intros t Ht.
    apply in_map_iff in Ht as (e' & <- & Hin). exact (Hrest e' Hin).
Qed.

(* ===================================================================== *)
(** ** The claims about the report *)
(* ===================================================================== *)



(** C6 as the spec words it fails: no format of an item, as a text made
    from the name and the title, authors, link, reference and year of a row,
    gives the items of both lists. *)
Lemma preprint_items_not_in_the_same_format :
  ~ (exists item : unicode -> str -> str -> str -> str -> str -> Z -> str,
       forall (U : unicode) name journals df_papers,
         Reporter.papers_list U name journals df_papers
         = two_lists
             (concat (List.map (fun row =>
                item U name (title row) (authors row) (url row)
                  (reference row) (year row))
                (List.filter (fun row => negb (isarxiv row)) df_papers)))
             (concat (List.map (fun row =>
                item U name (title row) (authors row) (url row)
                  (reference row) (year row))
                (List.filter isarxiv df_papers)))).
Proof.
  intros [item H].
  pose proof (H ascii_only (lit "A. Smith") Reporter.default_journals
                [journal_paper]) as H1.
  pose proof (H ascii_only (lit "A. Smith") Reporter.default_journals
                [journal_paper_as_preprint]) as H2.
  rewrite papers_list_items in H1, H2.
  cbn [List.filter isarxiv journal_paper journal_paper_as_preprint negb
       peer_reviewed List.map concat title authors url reference year] in H1, H2.
  apply two_lists_inj_l in H1. apply two_lists_inj_r in H2.
  rewrite <- H2 in H1. vm_compute in H1. discriminate.
Qed.

(** C6, amended.  The entries the two loops write are the same text of
    their arguments, one format of an item (the emphasised title, the author
    line with the name in bold, the linked reference with the year).  Both
    lists are made of such items, in the order of the table; the list of
    peer-reviewed papers holds the rows that are not preprints and puts the
    reference of a row in title case, the list of preprints holds the
    preprints and gives the reference as it is.  Where the references of the
    peer-reviewed rows are in title case already, the two lists differ in
    their rows only. *)
Theorem both_lists_use_item_text (U : unicode) (name : str)
    (journals : list str) (df_papers : list paper) :
  let item := fun row =>
    item_text name (title row) (authors row) (url row) (reference row)
      (year row) in
  let item_in_title_case := fun row =>
    item_text name (title row) (authors row) (url row)
      (title_case U (reference row)) (year row) in
  let peer_rows := List.filter (fun row => negb (isarxiv row)) df_papers in
  let preprint_rows := List.filter isarxiv df_papers in
  (forall t a u r y,
     Reporter.peer_entry t (Reporter.bolden a name) u r y = item_text name t a u r y /\
     Reporter.preprint_entry t (Reporter.bolden a name) u r y
     = item_text name t a u r y) /\
  Reporter.papers_list U name journals df_papers
  = two_lists (concat (List.map item_in_title_case peer_rows))
              (concat (List.map item preprint_rows)) /\
  (List.Forall (fun row => title_case U (reference row) = reference row) peer_rows ->
   Reporter.papers_list U name journals df_papers
   = two_lists (concat (List.map item peer_rows))
               (concat (List.map item preprint_rows))).
Proof.
  intros item item_in_title_case peer_rows preprint_rows.
  split; [|split].
  - intros t a u r y. split.
    + apply peer_entry_item.
    + apply preprint_entry_item.
  - apply papers_list_items.
  - intros Htitle. rewrite papers_list_items.
    change (List.filter peer_reviewed df_papers) with peer_rows.
    clearbody peer_rows. f_equal. f_equal.
    induction peer_rows as [|row rows IH]; [reflexivity|].
    apply List.Forall_cons_iff in Htitle as [Hrow Hrows].
    rewrite !map_cons, (IH Hrows). f_equal.
    unfold item. cbv beta. rewrite Hrow. reflexivity.
Qed.

Lemma both_lists_use_item_text_witness :
  Reporter.papers_list ascii_only (lit "A. Smith") Reporter.default_journals scenario
  = two_lists
      (concat (List.map (fun row =>
         item_text (lit "A. Smith") (title row) (authors row) (url row)
           (reference row) (year row)) scenario))
      [].
Proof.
  destruct (both_lists_use_item_text ascii_only (lit "A. Smith")
              Reporter.default_journals scenario) as (_ & _ & H).
  apply H. repeat constructor.
Defined.

(** The text of the statistics, from the counts over the table. *)
Lemma statistics_text (U : unicode) (name : str) (journals : list str)
    (df_papers : list paper) (current_date : str) :
  let T := venue_tally U name df_papers in
  let report :=
    List.map (fun journal =>
      venue_phrase journal (Reporter.count (T journal))
        (Reporter.first_author (T journal)) (Reporter.last_author (T journal)))
      (List.filter (fun journal => (0 <? Reporter.count (T journal))%Z) journals) in
  Reporter.statistics U (Reporter.peer_loop U name journals df_papers)
    journals current_date
  = Ok ((nl ++ of_int (count_rows peer_reviewed df_papers)
         ++ lit " peer-reviewed publications, "
         ++ of_int (count_rows (fun row => peer_reviewed row
                      && Reporter.is_first_author name row) df_papers)
         ++ lit " papers as first author, "
         ++ of_int (count_rows (fun row => peer_reviewed row
                      && Reporter.is_last_author name row) df_papers)
         ++ lit " papers as last author." ++ nl)
        ++ match report with
           | [] => []
           | _ :: _ => lit "These include " ++ join (lit ", ") report
                       ++ lit "." ++ nl
           end
        ++ lit "\textbf{h-index: "
        ++ of_int (Reporter.h_index_of
                     (List.map citations (List.filter peer_reviewed df_papers)))
        ++ lit ". Citations: "
        ++ of_int (sum_citations (List.filter peer_reviewed df_papers))
        ++ lit "} (Google Scholar, as of " ++ current_date ++ lit ").").
Proof.
  intros T report. unfold Reporter.statistics.
  rewrite (journal_report_spec U _ T journals [])
    by (intros j Hj; apply peer_loop_lookup, Hj).
  rewrite app_nil_l. fold report. cbn [bind].
  unfold Reporter.peer_loop.
  destruct (peer_fold_fields U name (Reporter.peer_rows df_papers)
              (Reporter.init_state U journals))
    as (-> & -> & -> & -> & -> & _ & _).
  cbn [Reporter.init_state Reporter.peer_reviewed_count
       Reporter.first_author_count Reporter.last_author_count
       Reporter.total_citations Reporter.citation_counts].
  rewrite !Z.add_0_l, app_nil_l, peer_rows_filter, !count_rows_filter.
  rewrite <- count_rows_all, count_rows_filter.
  replace (count_rows (fun row => peer_reviewed row && true) df_papers)
    with (count_rows peer_reviewed df_papers)
    by (unfold count_rows; do 2 f_equal; apply filter_ext;
        intros; rewrite andb_true_r; reflexivity).
  destruct report; rewrite <- ?app_assoc, ?app_nil_l; reflexivity.
Qed.

(** C7. The report of the tracked journals holds, in the order of the list
    of tracked journals and joined with [", "], one phrase for every journal
    with a nonzero number of rows that are not preprints and whose journal
    is the tracked one up to case; the phrase is the number and the name of
    the journal, followed by both author counts, by the first-author count
    or by the last-author count in brackets, according to which of the two
    are nonzero.  On the scenario of the spec, the text of the statistics
    holds [3 peer-reviewed publications, 1 papers as first author],
    [3 Nature Photonics (1 first author)] and [h-index: 2]. *)
Theorem statistics_paragraph_lists_tracked_journals (U : unicode) (name : str)
    (journals : list str) (df_papers : list paper) (current_date : str) :
  let T := venue_tally U name df_papers in
  let report :=
    List.map (fun journal =>
      venue_phrase journal (Reporter.count (T journal))
        (Reporter.first_author (T journal)) (Reporter.last_author (T journal)))
      (List.filter (fun journal => (0 <? Reporter.count (T journal))%Z) journals) in
  Reporter.journal_report U
    (Reporter.journal_counts (Reporter.peer_loop U name journals df_papers))
    journals [] = Ok report /\
  Reporter.statistics U (Reporter.peer_loop U name journals df_papers)
    journals current_date
  = Ok ((nl ++ of_int (count_rows peer_reviewed df_papers)
         ++ lit " peer-reviewed publications, "
         ++ of_int (count_rows (fun row => peer_reviewed row
                      && Reporter.is_first_author name row) df_papers)
         ++ lit " papers as first author, "
         ++ of_int (count_rows (fun row => peer_reviewed row
                      && Reporter.is_last_author name row) df_papers)
         ++ lit " papers as last author." ++ nl)
        ++ match report with
           | [] => []
           | _ :: _ => lit "These include " ++ join (lit ", ") report
                       ++ lit "." ++ nl
           end
        ++ lit "\textbf{h-index: "
        ++ of_int (Reporter.h_index_of
                     (List.map citations (List.filter peer_reviewed df_papers)))
        ++ lit ". Citations: "
        ++ of_int (sum_citations (List.filter peer_reviewed df_papers))
        ++ lit "} (Google Scholar, as of " ++ current_date ++ lit ").") /\
  (forall journal count n m,
     venue_phrase journal count n m
     = of_int count ++ lit " " ++ journal
       ++ (if (0 <? n)%Z && (0 <? m)%Z
           then lit " (" ++ of_int n ++ lit " first author, " ++ of_int m
                ++ lit " last author)"
           else if (0 <? n)%Z then lit " (" ++ of_int n ++ lit " first author)"
           else if (0 <? m)%Z then lit " (" ++ of_int m ++ lit " last author)"
           else [])) /\
  (exists text,
     Reporter.statistics U
       (Reporter.peer_loop U (lit "A. Smith") Reporter.default_journals scenario)
       Reporter.default_journals current_date = Ok text /\
     Reporter.generate_latex_report U scenario (lit "A. Smith")
       Reporter.default_journals current_date
     = Ok (text ++ nl ++ nl
           ++ Reporter.papers_list U (lit "A. Smith") Reporter.default_journals
                scenario) /\
     contains (lit "3 peer-reviewed publications, 1 papers as first author") text
     = true /\
     contains (lit "3 Nature Photonics (1 first author)") text = true /\
     contains (lit "h-index: 2") text = true).
Proof.
  intros T report. split; [|split; [|split]].
  - rewrite (journal_report_spec U _ T journals [])
      by (intros j Hj; apply peer_loop_lookup, Hj).
    reflexivity.
  - apply statistics_text.
  - reflexivity.
  - assert (E : Reporter.statistics U
       (Reporter.peer_loop U (lit "A. Smith") Reporter.default_journals scenario)
       Reporter.default_journals current_date
       = Ok ((nl ++ lit "3 peer-reviewed publications, 1 papers as first author, 0 papers as last author."
              ++ nl ++ lit "These include 3 Nature Photonics (1 first author)."
              ++ nl ++ lit "\textbf{h-index: 2. Citations: 9} (Google Scholar, as of ")
             ++ (current_date ++ lit ").")))
      by (vm_compute; reflexivity).
    eexists. split; [exact E|]. split.
    + unfold Reporter.generate_latex_report. rewrite E. cbn [bind].
      rewrite <- !app_assoc. reflexivity.
    + repeat split; apply contains_app_l; vm_compute; reflexivity.
Qed.

(* ===================================================================== *)
(** ** Splitting and joining *)
(* ===================================================================== *)

Section SplitJoin.

Lemma find_Some_startswith (p s : str) (n : nat) :
  find p s = Some n -> startswith p (drop n s) = true.
Proof.
  revert n; induction s as [|c s IH]; intros n; rewrite find_unfold.
  - destruct (startswith p []) eqn:E; [intros [= <-]; exact E | discriminate].
  - destruct (startswith p (c :: s)) eqn:E; [intros [= <-]; exact E|].
    destruct (find p s) as [m|]; [|discriminate].
    intros [= <-]. apply (IH m eq_refl).
Qed.

(** A string is the text before the first occurrence, the occurrence and
    the text behind it. *)
Lemma find_Some_decompose (p s : str) (n : nat) :
  find p s = Some n -> s = take n s ++ p ++ drop (n + length p) s.
Proof.
  intros F. apply find_Some_startswith in F. apply startswith_inv in F.
  rewrite <- (take_drop n s) at 1. rewrite F at 1.
  rewrite drop_drop. reflexivity.
Qed.

Lemma startswith_take (p s : str) (k : nat) :
  startswith p (take k s) = true -> startswith p s = true.
Proof.
  intros H. rewrite <- (take_drop k s). apply startswith_app_l, H.
Qed.

(** Before the first occurrence there is none. *)
Lemma find_take_None (p s : str) (n : nat) :
  p <> [] -> find p s = Some n -> find p (take n s) = None.
Proof.
  intros Hne. revert n; induction s as [|c s IH]; intros n; rewrite find_unfold.
  - destruct (startswith p []); [intros [= <-] | discriminate].
    rewrite find_unfold, startswith_nil_r by assumption. reflexivity.
  - destruct (startswith p (c :: s)) eqn:E.
    + intros [= <-]. rewrite take_0, find_unfold, startswith_nil_r by assumption.
      reflexivity.
    + destruct (find p s) as [m|] eqn:F; [|discriminate].
      intros [= <-]. change (take (S m) (c :: s)) with (c :: take m s).
      rewrite find_unfold, (IH m eq_refl).
      destruct (startswith p (c :: take m s)) eqn:E'; [|reflexivity].
      apply (startswith_take p (c :: s) (S m)) in E'. congruence.
Qed.

Lemma join_cons_cons (sep x y : str) (l : list str) :
  join sep (x :: y :: l) = x ++ sep ++ join sep (y :: l).
Proof. reflexivity. Qed.

(** Joining the pieces of a split with the separator gives the string
    back. *)
Lemma join_split (s sep : str) : sep <> [] -> join sep (split s sep) = s.
Proof.
  intros Hne. remember (length s) as m eqn:Hm. revert s Hm.
  induction m as [m IH] using (well_founded_induction lt_wf). intros s Hm.
  destruct (find sep s) as [n|] eqn:F.
  - rewrite (split_first _ _ _ Hne F), split_cons, join_cons_cons, <- split_cons.
    rewrite (IH (length (drop (n + length sep) s))); [| |reflexivity].
    + symmetry. apply find_Some_decompose, F.
    + pose proof (find_Some_bound _ _ _ F). rewrite length_drop.
      destruct sep; [congruence|]. simpl in *. lia.
  - rewrite (split_absent _ _ Hne F). reflexivity.
Qed.

(** No piece of a split holds the separator. *)
Lemma split_pieces (s sep : str) :
  sep <> [] -> List.Forall (fun piece => contains sep piece = false) (split s sep).
Proof.
  intros Hne. remember (length s) as m eqn:Hm. revert s Hm.
  induction m as [m IH] using (well_founded_induction lt_wf). intros s Hm.
  destruct (find sep s) as [n|] eqn:F.
  - rewrite (split_first _ _ _ Hne F). constructor.
    + apply find_None_contains, find_take_None; assumption.
    + apply (IH (length (drop (n + length sep) s))); [|reflexivity].
      pose proof (find_Some_bound _ _ _ F). rewrite length_drop.
      destruct sep; [congruence|]. simpl in *. lia.
  - rewrite (split_absent _ _ Hne F). constructor; [|constructor].
    apply find_None_contains, F.
Qed.

(** The head and the tail of a split, from the first occurrence. *)
Lemma split_head_tail (s sep : str) :
  sep <> [] ->
  hd [] (split s sep) = up_to_first sep s /\
  join sep (tl (split s sep)) = after_first sep s.
Proof.
  intros Hne. unfold up_to_first, after_first.
  destruct (find sep s) as [n|] eqn:F.
  - rewrite (split_first _ _ _ Hne F). cbn [hd tl]. split; [reflexivity|].
    apply join_split, Hne.
  - rewrite (split_absent _ _ Hne F). auto.
Qed.

Lemma contains_app_r (p a b : str) :
  contains p b = true -> contains p (a ++ b) = true.
Proof.
  intros H. induction a as [|c a IH]; [exact H|].
  rewrite <- app_comm_cons, contains_cons, IH. apply orb_true_r.
Qed.

(** The text behind the first occurrence is the end of the string. *)
Lemma after_first_suffix (sep s : str) :
  exists a, s = a ++ after_first sep s.
Proof.
  unfold after_first. destruct (find sep s) as [n|] eqn:F.
  - exists (take n s ++ sep). rewrite <- app_assoc. apply find_Some_decompose, F.
  - exists s. rewrite app_nil_r. reflexivity.
Qed.

End SplitJoin.

(* ===================================================================== *)
(** ** More about the formatting of names *)
(* ===================================================================== *)

Section FormatMore.
Variable U : unicode.

Lemma format_names_map (name_string : str) :
  Scraper.format_names U name_string
  = join (lit ", ")
      (List.map (Scraper.format_name U) (split name_string (lit ", "))).
Proof. unfold Scraper.format_names. rewrite fold_left_snoc. reflexivity. Qed.

Lemma format_name_closed (name : str) :
  Scraper.format_name U name
  = dotted_initials U name ++ lit " " ++ after_first (lit " ") name.
Proof.
  unfold Scraper.format_name, dotted_initials.
  destruct (split_head_tail name (lit " ") ltac:(discriminate)) as [-> ->].
  change (lit ".") with [46%N]. rewrite join_periods.
  destruct (upper U _); reflexivity.
Qed.

Lemma contains_periods (t rest : str) :
  contains [44%N; 32%N] (periods t ++ rest) = contains [44%N; 32%N] rest.
Proof.
  induction t as [|c t IH]; [reflexivity|].
  change (periods (c :: t) ++ rest) with (c :: 46%N :: (periods t ++ rest)).
  rewrite !contains_cons, !startswith_cons, IH.
  change (char_eqb 32%N 46%N) with false. change (char_eqb 44%N 46%N) with false.
  rewrite andb_false_r. reflexivity.
Qed.

(** The separator of the names occurs in a formatted name only where the
    text behind the first space holds it. *)
Lemma contains_format_name (name : str) :
  contains (lit ", ") (Scraper.format_name U name)
  = contains (lit ", ") (after_first (lit " ") name).
Proof.
  rewrite format_name_closed. change (lit ", ") with [44%N; 32%N].
  assert (E : forall rest,
    contains [44%N; 32%N] (lit " " ++ rest) = contains [44%N; 32%N] rest).
  { intros rest. change (lit " " ++ rest) with (32%N :: rest).
    rewrite contains_cons, startswith_cons. reflexivity. }
  unfold dotted_initials. destruct (upper U _) as [|c t].
  - change (lit "." ++ lit " " ++ ?x) with (46%N :: (lit " " ++ x)).
    rewrite contains_cons, startswith_cons. apply E.
  - rewrite contains_periods. apply E.
Qed.

Lemma format_name_keeps_separator_out (name : str) :
  contains (lit ", ") name = false ->
  contains (lit ", ") (Scraper.format_name U name) = false.
Proof.
  intros H. rewrite contains_format_name.
  destruct (after_first_suffix (lit " ") name) as [a Ha].
  destruct (contains (lit ", ") (after_first (lit " ") name)) eqn:E; [|reflexivity].
  apply (contains_app_r _ a) in E. rewrite <- Ha in E. congruence.
Qed.

End FormatMore.

(** X1. Formatting keeps the number and the order of the names: the output
    of [format_names], split at [", "], is the list of the formatted pieces
    of the input, so it has as many names as the input has pieces. *)
Theorem format_names_keeps_the_names (U : unicode) (name_string : str) :
  split (Scraper.format_names U name_string) (lit ", ")
  = List.map (Scraper.format_name U) (split name_string (lit ", ")) /\
  length (split (Scraper.format_names U name_string) (lit ", "))
  = length (split name_string (lit ", ")).
Proof.
  assert (E : split (Scraper.format_names U name_string) (lit ", ")
              = List.map (Scraper.format_name U) (split name_string (lit ", "))).
  { rewrite format_names_map. apply split_join_names.
    - rewrite split_cons. discriminate.
    - apply forallb_forall. intros formatted Hin.
      apply in_map_iff in Hin as (piece & <- & Hin).
      apply negb_true_iff, format_name_keeps_separator_out.
      pose proof (split_pieces name_string (lit ", ") ltac:(discriminate)) as Hp.
      rewrite List.Forall_forall in Hp. apply Hp, Hin. }
  split; [exact E|]. rewrite E. apply length_map.
Qed.

(** X2. A name without [", "] is formatted from its text up to the first
    space, and the text behind the first space is copied as it is: further
    spaces, case and accents of the surname stay.  A name without a space
    gets an empty surname, so the result ends in a space. *)
Theorem format_names_copies_the_surname (U : unicode) (name : str) :
  contains (lit ", ") name = false ->
  let token := up_to_first (lit " ") name in
  let initials :=
    upper U (if (3 <=? length token)%nat then take 1 token else token) in
  Scraper.format_names U name
  = match initials with [] => lit "." | _ :: _ => periods initials end
    ++ lit " " ++ after_first (lit " ") name /\
  (contains (lit " ") name = false ->
   Scraper.format_names U name
   = match initials with [] => lit "." | _ :: _ => periods initials end
     ++ lit " ").
Proof.
  intros H token initials.
  assert (E : Scraper.format_names U name
              = match initials with [] => lit "." | _ :: _ => periods initials end
                ++ lit " " ++ after_first (lit " ") name).
  { rewrite format_names_map.
    rewrite split_absent by (try discriminate; apply find_None_contains, H).
    cbn [List.map join]. rewrite format_name_closed. unfold dotted_initials.
    fold token. fold initials. destruct initials; reflexivity. }
  split; [exact E|]. intros Hs. rewrite E. unfold after_first.
  apply find_None_contains in Hs. rewrite Hs. reflexivity.
Qed.

Lemma format_names_copies_the_surname_witness :
  Scraper.format_names ascii_only (lit "john  von Neumann")
  = lit "J.  von Neumann"
  /\ Scraper.format_names ascii_only (lit "Plato") = lit "P. ".
Proof.
  destruct (format_names_copies_the_surname ascii_only (lit "john  von Neumann")
              eq_refl) as [H _].
  destruct (format_names_copies_the_surname ascii_only (lit "Plato") eq_refl)
    as [_ H'].
  split; [exact H | exact (H' eq_refl)].
Defined.

Section FormatTwice.
Variable U : unicode.

Lemma format_names_single (name : str) :
  contains (lit ", ") name = false ->
  Scraper.format_names U name = Scraper.format_name U name.
Proof.
  intros H. rewrite format_names_map.
  rewrite split_absent by (try discriminate; apply find_None_contains, H).
  reflexivity.
Qed.

Ltac ascii_cases :=
  unfold ascii_upper, ascii_lower in *;
  unfold is_ascii, is_ascii_upper, is_ascii_lower in *;
  repeat match goal with
  | |- context [(?a <=? ?b)%N] => destruct (N.leb_spec a b)
  | |- context [(?a <? ?b)%N] => destruct (N.ltb_spec a b)
  end; simpl in *; try reflexivity; try discriminate; try lia.

Lemma ascii_upper_idem (c : char) : ascii_upper (ascii_upper c) = ascii_upper c.
Proof. ascii_cases. Qed.

Lemma ascii_upper_not_space (c : char) : c <> 32%N -> ascii_upper c <> 32%N.
Proof. intros H. ascii_cases. Qed.

Lemma upper_ascii_char (c : char) (t : str) :
  is_ascii c = true -> upper U (c :: t) = ascii_upper c :: upper U t.
Proof. intros H. unfold upper. simpl. unfold upper_char at 1. rewrite H. reflexivity. Qed.

Lemma char_eqb_neq (a b : char) : a <> b -> char_eqb a b = false.
Proof. intros H. apply N.eqb_neq, H. Qed.

(** The first space of a text that starts with [k] characters other than
    the space and then has one. *)
Lemma find_space_after (a rest : str) :
  has_char 32%N a = false ->
  up_to_first (lit " ") (a ++ 32%N :: rest) = a /\
  after_first (lit " ") (a ++ 32%N :: rest) = rest.
Proof.
  intros H. unfold up_to_first, after_first. change (lit " ") with [32%N].
  pose proof (find_char_after 32%N a rest H) as F.
  unfold str, char in *. rewrite F.
  rewrite take_app_length, <- drop_drop, drop_app_length. auto.
Qed.

End FormatTwice.

(** X3. [format_names] is made for names that are not formatted yet: the
    name of a single ASCII initial and a surname gets the initial in upper
    case with one period, and formatting the result again gives the initial
    with three periods. *)
Theorem format_names_twice_adds_periods (U : unicode) (x : char) (rest : str) :
  is_ascii x = true ->
  x <> 32%N ->
  contains (lit ", ") (x :: 32%N :: rest) = false ->
  Scraper.format_names U (x :: 32%N :: rest)
  = ascii_upper x :: lit ". " ++ rest /\
  Scraper.format_names U (Scraper.format_names U (x :: 32%N :: rest))
  = ascii_upper x :: lit "... " ++ rest.
Proof.
  intros Hx Hsp Hsep.
  assert (Hrest : contains (lit ", ") rest = false).
  { change (lit ", ") with [44%N; 32%N] in *.
    rewrite !contains_cons in Hsep.
    apply orb_false_iff in Hsep as [_ Hsep].
    apply orb_false_iff in Hsep as [_ Hsep]. exact Hsep. }
  assert (E1 : Scraper.format_names U (x :: 32%N :: rest)
               = ascii_upper x :: lit ". " ++ rest).
  { rewrite format_names_single, format_name_closed by exact Hsep.
    unfold dotted_initials.
    destruct (find_space_after [x] rest) as [Hu Ha].
    { unfold has_char. cbn [existsb]. rewrite char_eqb_neq by congruence.
      reflexivity. }
    change ([x] ++ 32%N :: rest) with (x :: 32%N :: rest) in Hu, Ha.
    rewrite Hu, Ha. cbn [length Nat.leb]. rewrite upper_ascii_char by exact Hx. reflexivity. }
  split; [exact E1|]. rewrite E1.
  assert (Hsep' : contains (lit ", ") (ascii_upper x :: lit ". " ++ rest) = false).
  { change (lit ", ") with [44%N; 32%N].
    change (ascii_upper x :: lit ". " ++ rest)
      with (ascii_upper x :: 46%N :: 32%N :: rest).
    rewrite !contains_cons, !startswith_cons.
    change (char_eqb 32%N 46%N) with false. change (char_eqb 44%N 46%N) with false.
    change (char_eqb 44%N 32%N) with false.
    rewrite andb_false_r. exact Hrest. }
  rewrite format_names_single, format_name_closed by exact Hsep'.
  unfold dotted_initials.
  destruct (find_space_after [ascii_upper x; 46%N] rest) as [Hu Ha].
  { unfold has_char. cbn [existsb]. rewrite char_eqb_neq; [reflexivity|].
    intros E. symmetry in E. revert E. apply ascii_upper_not_space, Hsp. }
  change ([ascii_upper x; 46%N] ++ 32%N :: rest)
    with (ascii_upper x :: lit ". " ++ rest) in Hu, Ha.
  rewrite Hu, Ha. cbn [length Nat.leb].
  rewrite upper_ascii_char by (apply is_ascii_upper_case, Hx).
  rewrite upper_ascii_char by reflexivity.
  rewrite ascii_upper_idem. reflexivity.
Qed.

Lemma format_names_twice_adds_periods_witness :
  Scraper.format_names ascii_only (lit "c Munoz") = lit "C. Munoz" /\
  Scraper.format_names ascii_only (Scraper.format_names ascii_only (lit "c Munoz"))
  = lit "C... Munoz".
Proof.
  apply (format_names_twice_adds_periods ascii_only 99%N (lit "Munoz")).
  - reflexivity.
  - discriminate.
  - reflexivity.
Defined.

(* ===================================================================== *)
(** ** More about the unification of aliases *)
(* ===================================================================== *)

Section UnifyMore.

(** Replacing a text by itself changes nothing. *)
Lemma replace_same (s x : str) : replace s x x = s.
Proof.
  destruct (decide (x = [])) as [->|Hne].
  - unfold replace. rewrite app_nil_l.
    induction s as [|c s IH]; [reflexivity|]. simpl. rewrite IH. reflexivity.
  - remember (length s) as m eqn:Hm. revert s Hm.
    induction m as [m IH] using (well_founded_induction lt_wf). intros s Hm.
    destruct (find x s) as [n|] eqn:F.
    + rewrite (replace_first _ _ _ _ Hne F).
      rewrite (IH (length (drop (n + length x) s))); [| |reflexivity].
      * symmetry. apply find_Some_decompose, F.
      * pose proof (find_Some_bound _ _ _ F). rewrite length_drop.
        destruct x; [congruence|]. simpl in *. lia.
    + apply replace_absent, F.
Qed.

Lemma unify_pseudonyms_app (s : str) (a b : list str) (name : str) :
  Scraper.unify_pseudonyms s (a ++ b) name
  = Scraper.unify_pseudonyms (Scraper.unify_pseudonyms s a name) b name.
Proof. unfold Scraper.unify_pseudonyms. apply fold_left_app. Qed.

End UnifyMore.

(** X4. [unify_pseudonyms] leaves a string in which none of the aliases
    occurs as it is; an alias equal to the canonical name never changes
    anything; and going through two lists of aliases one after the other is
    going through their concatenation. *)
Theorem unify_pseudonyms_no_change (s : str) (aliases more : list str)
    (name : str) :
  (forallb (fun alias => negb (contains alias s)) aliases = true ->
   Scraper.unify_pseudonyms s aliases name = s) /\
  Scraper.unify_pseudonyms s (name :: aliases) name
  = Scraper.unify_pseudonyms s aliases name /\
  Scraper.unify_pseudonyms s (aliases ++ more) name
  = Scraper.unify_pseudonyms (Scraper.unify_pseudonyms s aliases name) more name.
Proof.
  split; [|split].
  - induction aliases as [|alias aliases IH]; intros H; [reflexivity|].
    simpl in H. apply andb_true_iff in H as [Ha Hrest]. apply negb_true_iff in Ha.
    simpl. rewrite replace_absent by (apply find_None_contains, Ha).
    apply IH, Hrest.
  - simpl. rewrite replace_same. reflexivity.
  - apply unify_pseudonyms_app.
Qed.

Lemma unify_pseudonyms_no_change_witness :
  Scraper.unify_pseudonyms (lit "E del Valle, F Laussy")
    [lit "C S Munoz"; lit "CS Munoz"] sanchez_munoz
  = lit "E del Valle, F Laussy".
Proof.
  destruct (unify_pseudonyms_no_change (lit "E del Valle, F Laussy")
              [lit "C S Munoz"; lit "CS Munoz"] [] sanchez_munoz) as [H _].
  exact (H eq_refl).
Defined.

(* ===================================================================== *)
(** ** More about the loop over the entries *)
(* ===================================================================== *)

Section ScrapeMore.
Variable U : unicode.
Variable name : str.
Variable pseudonyms : list str.

Lemma scrape_papers_Ok (papers : list Scraper.entry) (acc rows : list paper) :
  Scraper.scrape_papers U name pseudonyms papers acc = Ok rows <->
  exists new,
    rows = acc ++ new /\
    Forall2 (fun e row => Scraper.scrape_paper U name pseudonyms e = Ok row)
            papers new.
Proof.
  revert acc rows; induction papers as [|e papers IH]; intros acc rows; simpl.
  - split.
    + intros [= <-]. exists []. rewrite app_nil_r. split; [reflexivity|constructor].
    + intros (new & -> & H). inversion H. rewrite app_nil_r. reflexivity.
  - destruct (Scraper.scrape_paper U name pseudonyms e) as [row|x] eqn:E; simpl.
    + rewrite IH. split.
      * intros (new & -> & H). exists (row :: new). rewrite <- app_assoc.
        split; [reflexivity|]. constructor; assumption.
      * intros (new & -> & H). inversion H as [|? row' ? new' Hrow Hrest]; subst.
        rewrite E in Hrow. injection Hrow as <-.
        exists new'. rewrite <- app_assoc. split; [reflexivity | assumption].
    + split; [discriminate|].
      intros (new & _ & H). inversion H as [|? row' ? new' Hrow Hrest]; subst.
      rewrite E in Hrow. discriminate.
Qed.

End ScrapeMore.

(** X5. [getGSdata] gives a table exactly when every entry of the profile
    gives a row, and then the table holds those rows, one for each entry and
    in the order of the page; in particular it has as many rows as the
    profile has entries, and an entry that raises leaves no table. *)
Theorem getGSdata_all_or_nothing (U : unicode) (name : str)
    (pseudonyms : list str) (papers : list Scraper.entry) :
  (forall rows,
     Scraper.getGSdata U name pseudonyms papers = Ok rows <->
     Forall2 (fun e row => Scraper.scrape_paper U name pseudonyms e = Ok row)
             papers rows) /\
  (forall rows,
     Scraper.getGSdata U name pseudonyms papers = Ok rows ->
     length rows = length papers) /\
  (forall e x,
     In e papers -> Scraper.scrape_paper U name pseudonyms e = Raise x ->
     exists x', Scraper.getGSdata U name pseudonyms papers = Raise x').
Proof.
  assert (H : forall rows,
     Scraper.getGSdata U name pseudonyms papers = Ok rows <->
     Forall2 (fun e row => Scraper.scrape_paper U name pseudonyms e = Ok row)
             papers rows).
  { intros rows. unfold Scraper.getGSdata. rewrite scrape_papers_Ok. split.
    - intros (new & -> & Hn). exact Hn.
    - intros Hn. exists rows. auto. }
  split; [exact H|]. split.
  - intros rows Hr. apply H in Hr. symmetry. eapply Forall2_length, Hr.
  - intros e x Hin He. apply in_split in Hin as (before & after & ->).
    eapply scrape_papers_abort, He.
Qed.

Lemma getGSdata_all_or_nothing_witness :
  exists rows,
    Scraper.getGSdata ascii_only (lit "A. Smith") [] [arxiv_entry; alias_entry]
    = Ok rows /\ length rows = 2%nat.
Proof.
  eexists. split; [reflexivity|].
  destruct (getGSdata_all_or_nothing ascii_only (lit "A. Smith") []
              [arxiv_entry; alias_entry]) as (_ & H & _).
  exact (H _ eq_refl).
Defined.

(** X6. On an entry whose elements the browser finds, building a row
    raises [IndexError] when the list view has no second grey line;
    otherwise [ValueError] when the year cell is no integer; otherwise
    [IndexError] when the detail page has fewer than three value cells;
    otherwise [IndexError] when the venue is classified as a preprint and
    the reference has no [arXiv:].  In every other case the row is built,
    also when the citation cell is no integer: the row then has 0
    citations. *)
Theorem scrape_paper_failures (U : unicode) (name : str)
    (pseudonyms : list str) (e : Scraper.entry) :
  (nth_error (Scraper.gs_gray e) 1 = None ->
   Scraper.scrape_paper U name pseudonyms e = Raise IndexError) /\
  (forall ref,
     nth_error (Scraper.gs_gray e) 1 = Some ref ->
     Scraper.gsc_a_y e = None ->
     Scraper.scrape_paper U name pseudonyms e = Raise ValueError) /\
  (forall ref y,
     nth_error (Scraper.gs_gray e) 1 = Some ref ->
     Scraper.gsc_a_y e = Some y ->
     nth_error (Scraper.gsc_oci_value e) 2 = None ->
     Scraper.scrape_paper U name pseudonyms e = Raise IndexError) /\
  (forall ref y jt,
     nth_error (Scraper.gs_gray e) 1 = Some ref ->
     Scraper.gsc_a_y e = Some y ->
     nth_error (Scraper.gsc_oci_value e) 2 = Some jt ->
     Scraper.is_arxiv U (title_case U jt) = true ->
     contains (lit "arXiv:") ref = false ->
     Scraper.scrape_paper U name pseudonyms e = Raise IndexError) /\
  (forall ref y jt,
     nth_error (Scraper.gs_gray e) 1 = Some ref ->
     Scraper.gsc_a_y e = Some y ->
     nth_error (Scraper.gsc_oci_value e) 2 = Some jt ->
     Scraper.is_arxiv U (title_case U jt) = false
     \/ contains (lit "arXiv:") ref = true ->
     exists row,
       Scraper.scrape_paper U name pseudonyms e = Ok row /\
       year row = y /\
       citations row
       = match Scraper.gsc_a_ac e with Some c => c | None => 0%Z end).
Proof.
  split; [|split; [|split; [|split]]].
  - intros H1. unfold Scraper.scrape_paper, index. rewrite H1. reflexivity.
  - intros ref H1 H2. unfold Scraper.scrape_paper, index.
    rewrite H1, H2. reflexivity.
  - intros ref y H1 H2 H3. unfold Scraper.scrape_paper, index.
    rewrite H1, H2, H3. reflexivity.
  - intros ref y jt H1 H2 H3 Hflag Hc.
    assert (H4 : exists au, nth_error (Scraper.gsc_oci_value e) 0 = Some au).
    { destruct (Scraper.gsc_oci_value e) as [|au values]; [discriminate|eauto]. }
    destruct H4 as [au H4].
    rewrite (scrape_paper_unfold U name pseudonyms e ref y jt au);
      unfold index; rewrite ?H1, ?H2, ?H3, ?H4; try reflexivity.
    rewrite Hflag, Hc. reflexivity.
  - intros ref y jt H1 H2 H3 Hcase.
    assert (H4 : exists au, nth_error (Scraper.gsc_oci_value e) 0 = Some au).
    { destruct (Scraper.gsc_oci_value e) as [|au values]; [discriminate|eauto]. }
    destruct H4 as [au H4].
    rewrite (scrape_paper_unfold U name pseudonyms e ref y jt au);
      unfold index; rewrite ?H1, ?H2, ?H3, ?H4; try reflexivity.
    destruct (Scraper.is_arxiv U (title_case U jt)) eqn:Hflag.
    + destruct Hcase as [Hcase|Hcase]; [discriminate|]. rewrite Hcase.
      eexists. split; [reflexivity|]. split; reflexivity.
    + eexists. split; [reflexivity|]. split; reflexivity.
Qed.

Lemma scrape_paper_failures_witness :
  Scraper.scrape_paper ascii_only (lit "A. Smith") [] unmarked_entry
  = Raise IndexError /\
  exists row,
    Scraper.scrape_paper ascii_only (lit "A. Smith") [] arxiv_entry = Ok row /\
    year row = 2024%Z /\ citations row = 0%Z.
Proof.
  split.
  - destruct (scrape_paper_failures ascii_only (lit "A. Smith") [] unmarked_entry)
      as (_ & _ & _ & H & _).
    exact (H _ _ _ eq_refl eq_refl eq_refl eq_refl eq_refl).
  - destruct (scrape_paper_failures ascii_only (lit "A. Smith") [] arxiv_entry)
      as (_ & _ & _ & _ & H).
    exact (H _ _ _ eq_refl eq_refl eq_refl (or_intror eq_refl)).
Defined.

(* ===================================================================== *)
(** ** The pagination loop *)
(* ===================================================================== *)

Section PaginationFacts.
Import Pagination.
Variable page : Type.
Variable gsc_a_tr : page -> nat.
Variable mostrar_mas : page -> option page.

Lemma show_all_flag (fuel : nat) (flag : Z) (p : page) :
  flag <> 0%Z -> show_all page gsc_a_tr mostrar_mas fuel flag p = Some p.
Proof.
  intros H. destruct fuel; simpl; destruct (Z.eqb_spec flag 0); congruence.
Qed.

Lemma show_all_step (fuel : nat) (p : page) :
  show_all page gsc_a_tr mostrar_mas (S fuel) 0 p
  = match mostrar_mas p with
    | None => Some p
    | Some p' =>
        if (gsc_a_tr p' =? gsc_a_tr p)%nat then Some p'
        else show_all page gsc_a_tr mostrar_mas fuel 0 p'
    end.
Proof.
  simpl. destruct (mostrar_mas p) as [p'|]; [|reflexivity].
  destruct (gsc_a_tr p' =? gsc_a_tr p)%nat; [|reflexivity].
  apply show_all_flag. discriminate.
Qed.

(** Where the loop stops: after some clicks that went through, at a page
    whose button is gone or that the last click left with as many papers as
    before. *)
Lemma show_all_exit (fuel : nat) (p r : page) :
  show_all page gsc_a_tr mostrar_mas fuel 0 p = Some r ->
  exists k, (k <= fuel)%nat /\ clicks mostrar_mas k p = Some r /\
    (mostrar_mas r = None \/
     exists q, mostrar_mas q = Some r /\ gsc_a_tr r = gsc_a_tr q).
Proof.
  revert p; induction fuel as [|fuel IH]; intros p; [discriminate|].
  rewrite show_all_step. destruct (mostrar_mas p) as [p'|] eqn:E.
  - destruct (Nat.eqb_spec (gsc_a_tr p') (gsc_a_tr p)) as [Heq|Hne].
    + intros [= <-]. exists 1%nat. split; [lia|]. simpl. rewrite E.
      split; [reflexivity|]. right. exists p. auto.
    + intros H. destruct (IH p' H) as (k & Hk & Hc & Hexit).
      exists (S k). split; [lia|]. simpl. rewrite E. auto.
  - intros [= <-]. exists O. split; [lia|]. split; [reflexivity|]. left. exact E.
Qed.

(** More turns than needed do not change the result. *)
Lemma show_all_more_fuel (fuel more : nat) (p r : page) :
  show_all page gsc_a_tr mostrar_mas fuel 0 p = Some r ->
  show_all page gsc_a_tr mostrar_mas (fuel + more) 0 p = Some r.
Proof.
  revert p; induction fuel as [|fuel IH]; intros p; [discriminate|].
  change (S fuel + more)%nat with (S (fuel + more)). rewrite !show_all_step.
  destruct (mostrar_mas p) as [p'|]; [|auto].
  destruct (gsc_a_tr p' =? gsc_a_tr p)%nat; [auto|]. apply IH.
Qed.

(** The loop ends on pages whose number of papers never shrinks at a click
    and stays below a bound. *)
Lemma show_all_terminates (ok : page -> Prop) (total fuel : nat) (p : page) :
  (forall q q', ok q -> mostrar_mas q = Some q' ->
                ok q' /\ (gsc_a_tr q <= gsc_a_tr q')%nat) ->
  (forall q, ok q -> (gsc_a_tr q <= total)%nat) ->
  ok p -> (total - gsc_a_tr p < fuel)%nat ->
  exists r, show_all page gsc_a_tr mostrar_mas fuel 0 p = Some r.
Proof.
  intros Hstep Hbound. revert p; induction fuel as [|fuel IH]; intros p Hp Hf; [lia|].
  rewrite show_all_step. destruct (mostrar_mas p) as [p'|] eqn:E; [|eauto].
  destruct (Nat.eqb_spec (gsc_a_tr p') (gsc_a_tr p)) as [Heq|Hne]; [eauto|].
  destruct (Hstep p p' Hp E) as [Hp' Hle].
  apply IH; [exact Hp'|]. pose proof (Hbound p' Hp'). lia.
Qed.

End PaginationFacts.

(** X7. The loop that shows all papers ends when no click makes the number
    of listed papers shrink and the number stays below a bound: from a page
    with [n] papers of at most [total] it needs at most [total - n + 1]
    turns.  It leaves the browser on a page reached by clicks that all went
    through, where the button is gone or where the last click left the
    number of papers as it was; further turns would not change that. *)
Theorem show_all_ends (page : Type) (gsc_a_tr : page -> nat)
    (mostrar_mas : page -> option page) (ok : page -> Prop) (total : nat)
    (p : page) :
  (forall q q', ok q -> mostrar_mas q = Some q' ->
                ok q' /\ (gsc_a_tr q <= gsc_a_tr q')%nat) ->
  (forall q, ok q -> (gsc_a_tr q <= total)%nat) ->
  ok p ->
  exists r k,
    Pagination.show_all page gsc_a_tr mostrar_mas (total - gsc_a_tr p + 1) 0 p
    = Some r /\
    (k <= total - gsc_a_tr p + 1)%nat /\
    clicks mostrar_mas k p = Some r /\
    (mostrar_mas r = None \/
     exists q, mostrar_mas q = Some r /\ gsc_a_tr r = gsc_a_tr q) /\
    forall more,
      Pagination.show_all page gsc_a_tr mostrar_mas
        (total - gsc_a_tr p + 1 + more) 0 p = Some r.
Proof.
  intros Hstep Hbound Hp.
  destruct (show_all_terminates page gsc_a_tr mostrar_mas ok total
              (total - gsc_a_tr p + 1) p Hstep Hbound Hp ltac:(lia)) as [r Hr].
  destruct (show_all_exit page gsc_a_tr mostrar_mas _ _ _ Hr)
    as (k & Hk & Hc & Hexit).
  exists r, k. repeat split; try assumption.
  intros more. apply show_all_more_fuel, Hr.
Qed.

Lemma show_all_ends_witness :
  exists r k,
    Pagination.show_all nat (fun shown => shown) (profile_click 250)
      (250 - 20 + 1) 0 20%nat = Some r /\
    (k <= 250 - 20 + 1)%nat /\
    clicks (profile_click 250) k 20%nat = Some r /\
    (profile_click 250 r = None \/
     exists q, profile_click 250 q = Some r /\ r = q) /\
    forall more,
      Pagination.show_all nat (fun shown => shown) (profile_click 250)
        (250 - 20 + 1 + more) 0 20%nat = Some r.
Proof.
  apply (show_all_ends nat (fun shown => shown) (profile_click 250)
           (fun shown => (shown <= 250)%nat) 250 20%nat).
  - intros q q' Hq [= <-]. split; lia.
  - intros q Hq. exact Hq.
  - lia.
Defined.

(* ===================================================================== *)
(** ** More about the h-index *)
(* ===================================================================== *)

Section HIndexMore.
Import Reporter.

Lemma at_least_cons (r c : Z) (l : list Z) :
  at_least r (c :: l) = (Z.b2z (r <=? c)%Z + at_least r l)%Z.
Proof.
  unfold at_least. simpl. destruct (r <=? c)%Z; simpl length; simpl Z.b2z; lia.
Qed.

Lemma at_least_nil (r : Z) : at_least r [] = 0%Z.
Proof. reflexivity. Qed.

Lemma at_least_bounds (r : Z) (l : list Z) :
  (0 <= at_least r l <= Z.of_nat (length l))%Z.
Proof.
  induction l as [|c l IH]; [rewrite at_least_nil; simpl; lia|].
  rewrite at_least_cons. simpl length. destruct (r <=? c)%Z; simpl Z.b2z; lia.
Qed.

Lemma at_least_perm (r : Z) (l l' : list Z) :
  Permutation l l' -> at_least r l = at_least r l'.
Proof.
  induction 1 as [|c l l' _ IH|c d l|l l' l'' _ IH1 _ IH2];
    rewrite ?at_least_cons; lia.
Qed.

(** The more is asked, the fewer counts reach it. *)
Lemma at_least_antitone (r r' : Z) (l : list Z) :
  (r <= r')%Z -> (at_least r' l <= at_least r l)%Z.
Proof.
  intros H. induction l as [|c l IH]; [reflexivity|].
  rewrite !at_least_cons.
  destruct (Z.leb_spec r c), (Z.leb_spec r' c); simpl Z.b2z; lia.
Qed.

Lemma at_least_none (r c : Z) (l : list Z) :
  List.Forall (fun d => (c >= d)%Z) l -> (c < r)%Z -> at_least r l = 0%Z.
Proof.
  intros Hall Hc. induction Hall as [|d l Hd _ IH]; [reflexivity|].
  rewrite at_least_cons, IH. destruct (Z.leb_spec r d); simpl Z.b2z; lia.
Qed.

(** In a descending list the counts that reach [r] are the first ones. *)
Lemma at_least_sorted (r : Z) (s : list Z) (k : nat) :
  StronglySorted Z.ge s ->
  (Z.of_nat k < at_least r s)%Z <-> (k < length s)%nat /\ (r <= nth k s 0)%Z.
Proof.
  intros Hs. revert k; induction Hs as [|c s Hs IH Hall]; intros k.
  - rewrite at_least_nil. simpl. destruct k; lia.
  - rewrite at_least_cons. destruct (Z.leb_spec r c) as [Hc|Hc]; simpl Z.b2z.
    + destruct k as [|k]; simpl.
      * pose proof (at_least_bounds r s). lia.
      * specialize (IH k). lia.
    + rewrite (at_least_none r c s Hall Hc).
      assert (Hs' : StronglySorted Z.ge (c :: s)) by (constructor; assumption).
      split; [lia|]. intros [Hk Hr].
      pose proof (sorted_nth_le_head c s k Hs' Hk). lia.
Qed.

(** The h-index by counting: the largest [r] that at least [r] of the
    counts reach, 0 when there is none. *)
Lemma h_index_at_least (l : list Z) :
  let h := h_index_of l in
  (h = 0%Z \/ (1 <= h <= at_least h l)%Z) /\
  (forall r, (1 <= r)%Z -> (r <= at_least r l)%Z -> (r <= h)%Z).
Proof.
  intros h.
  pose proof (sorted_reverse_sorted l) as Hs.
  pose proof (sorted_reverse_perm l) as Hp.
  destruct (h_index_loop_spec (sorted_reverse l) 0%Z Hs) as (B & P & Q).
  change (h_index_loop 0 0 (sorted_reverse l)) with h in *.
  split.
  - destruct (Z.eq_dec h 0%Z) as [?|Hh]; [left; assumption|right].
    destruct (P (Z.to_nat (h - 1)) ltac:(lia)) as [K1 K2].
    split; [lia|]. rewrite <- (at_least_perm h _ _ Hp).
    assert (K3 : (h <= nth (Z.to_nat (h - 1)) (sorted_reverse l) 0)%Z) by lia.
    pose proof (proj2 (at_least_sorted h _ (Z.to_nat (h - 1)) Hs) (conj K1 K3)).
    lia.
  - intros r Hr1 Hr. rewrite <- (at_least_perm r _ _ Hp) in Hr.
    assert (K0 : (Z.of_nat (Z.to_nat (r - 1)) < at_least r (sorted_reverse l))%Z)
      by lia.
    destruct (proj1 (at_least_sorted r _ (Z.to_nat (r - 1)) Hs) K0) as [K1 K2].
    destruct (Z_le_gt_dec r h) as [?|Hgt]; [assumption|exfalso].
    specialize (Q (Z.to_nat (r - 1)) K1 ltac:(lia)). lia.
Qed.

Lemma h_index_nonneg (l : list Z) :
  (0 <= h_index_of l <= Z.of_nat (length l))%Z.
Proof.
  destruct (h_index_loop_spec (sorted_reverse l) 0%Z (sorted_reverse_sorted l))
    as (B & _ & _).
  rewrite (Permutation_length (sorted_reverse_perm l)) in B. exact B.
Qed.

(** The h-index is the same for two lists with the same counts that reach
    every [r]. *)
Lemma h_index_ext (l l' : list Z) :
  (forall r, (at_least r l <= at_least r l')%Z) ->
  (h_index_of l <= h_index_of l')%Z.
Proof.
  intros H. destruct (h_index_at_least l) as [[E|[H1 H2]] _].
  - rewrite E. apply h_index_nonneg.
  - destruct (h_index_at_least l') as [_ Hmax].
    apply Hmax; [exact H1|]. specialize (H (h_index_of l)). lia.
Qed.

Lemma at_least_map_citations (r : Z) (rows : list paper) :
  at_least r (List.map citations rows)
  = count_rows (fun row => (r <=? citations row)%Z) rows.
Proof.
  induction rows as [|row rows IH]; [reflexivity|].
  rewrite map_cons, at_least_cons, count_rows_cons, IH. reflexivity.
Qed.

(** The sum of counts that are not negative is at least [r] for each
    count that reaches [r]. *)
Lemma sum_at_least (r : Z) (l : list Z) :
  (0 <= r)%Z -> List.Forall (fun c => (0 <= c)%Z) l ->
  (r * at_least r l <= sum_list l)%Z.
Proof.
  intros Hr Hall. induction Hall as [|c l Hc _ IH].
  - rewrite at_least_nil. change (sum_list []) with 0%Z. lia.
  - rewrite at_least_cons. change (sum_list (c :: l)) with (c + sum_list l)%Z.
    destruct (Z.leb_spec r c); simpl Z.b2z; nia.
Qed.

End HIndexMore.

(** X8. The h-index of the report is the largest number [r] such that at
    least [r] rows that are not preprints have [r] citations or more, and 0
    when there is no such number. *)
Theorem h_index_counts_papers (U : unicode) (name : str)
    (journals : list str) (df_papers : list paper) :
  let h := Reporter.h_index_of
             (Reporter.citation_counts
                (Reporter.peer_loop U name journals df_papers)) in
  let papers := fun r =>
    count_rows (fun row => negb (isarxiv row) && (r <=? citations row)%Z)
      df_papers in
  (h = 0%Z \/ (1 <= h <= papers h)%Z) /\
  (forall r, (1 <= r)%Z -> (r <= papers r)%Z -> (r <= h)%Z).
Proof.
  intros h papers.
  assert (E : Reporter.citation_counts
                (Reporter.peer_loop U name journals df_papers)
              = List.map citations (List.filter peer_reviewed df_papers)).
  { unfold Reporter.peer_loop.
    destruct (peer_fold_fields U name (Reporter.peer_rows df_papers)
                (Reporter.init_state U journals)) as (_ & _ & _ & _ & -> & _).
    reflexivity. }
  assert (Hp : forall r, papers r
                 = at_least r (List.map citations
                                 (List.filter peer_reviewed df_papers))).
  { intros r. rewrite at_least_map_citations, count_rows_filter. reflexivity. }
  unfold h. rewrite E.
  destruct (h_index_at_least
              (List.map citations (List.filter peer_reviewed df_papers)))
    as [H1 H2].
  split.
  - destruct H1 as [H1|H1]; [left; exact H1|right]. rewrite Hp. exact H1.
  - intros r Hr1 Hr. apply H2; [exact Hr1|]. rewrite <- Hp. exact Hr.
Qed.

Lemma h_index_counts_papers_witness :
  (2 <= Reporter.h_index_of
          (Reporter.citation_counts
             (Reporter.peer_loop ascii_only (lit "A. Smith")
                Reporter.default_journals scenario)))%Z.
Proof.
  destruct (h_index_counts_papers ascii_only (lit "A. Smith")
              Reporter.default_journals scenario) as [_ H].
  apply (H 2%Z); [lia|]. vm_compute. discriminate.
Defined.

(** X9. The h-index does not depend on the order of the citation counts;
    one more count never lowers it and raises it by one at most. *)
Theorem h_index_order_and_growth (l l' : list Z) (c : Z) :
  (Permutation l l' -> Reporter.h_index_of l = Reporter.h_index_of l') /\
  (Reporter.h_index_of l <= Reporter.h_index_of (c :: l)
   <= Reporter.h_index_of l + 1)%Z.
Proof.
  split.
  - intros Hp. apply Z.le_antisymm; apply h_index_ext; intros r;
      rewrite (at_least_perm r _ _ Hp); reflexivity.
  - split.
    + apply h_index_ext. intros r. rewrite at_least_cons.
      destruct (r <=? c)%Z; simpl Z.b2z; lia.
    + destruct (h_index_at_least (c :: l)) as [[E|[H1 H2]] _]; [|].
      * rewrite E. pose proof (h_index_nonneg l). lia.
      * destruct (Z.eq_dec (Reporter.h_index_of (c :: l)) 1%Z) as [E|Hne].
        { rewrite E. pose proof (h_index_nonneg l). lia. }
        destruct (h_index_at_least l) as [_ Hmax].
        specialize (Hmax (Reporter.h_index_of (c :: l) - 1)%Z ltac:(lia)).
        rewrite at_least_cons in H2.
        pose proof (at_least_antitone (Reporter.h_index_of (c :: l) - 1)
                      (Reporter.h_index_of (c :: l)) l ltac:(lia)).
        assert ((Z.b2z (Reporter.h_index_of (c :: l) <=? c) <= 1)%Z)
          by (destruct (_ <=? _)%Z; simpl; lia).
        lia.
Qed.

Lemma h_index_order_and_growth_witness :
  Reporter.h_index_of [3; 10; 4; 8; 5]%Z = Reporter.h_index_of [10; 8; 5; 4; 3]%Z.
Proof.
  destruct (h_index_order_and_growth [3; 10; 4; 8; 5]%Z [10; 8; 5; 4; 3]%Z 0%Z)
    as [H _].
  apply H. exact (Permutation_sym (sorted_reverse_perm [3; 10; 4; 8; 5]%Z)).
Defined.

(** X10. The h-index lies between 0 and the number of counts, and when no
    count is negative its square is at most the sum of the counts. *)
Theorem h_index_bounds (l : list Z) :
  (0 <= Reporter.h_index_of l <= Z.of_nat (length l))%Z /\
  (List.Forall (fun c => (0 <= c)%Z) l ->
   (Reporter.h_index_of l * Reporter.h_index_of l <= sum_list l)%Z).
Proof.
  split; [apply h_index_nonneg|]. intros Hall.
  pose proof (h_index_nonneg l) as [H0 _].
  pose proof (sum_at_least (Reporter.h_index_of l) l H0 Hall) as Hs.
  destruct (h_index_at_least l) as [[E|[H1 H2]] _].
  - rewrite E in *. lia.
  - nia.
Qed.

Lemma h_index_bounds_witness :
  (Reporter.h_index_of [10; 8; 5; 4; 3]%Z * Reporter.h_index_of [10; 8; 5; 4; 3]%Z
   <= sum_list [10; 8; 5; 4; 3]%Z)%Z.
Proof.
  destruct (h_index_bounds [10; 8; 5; 4; 3]%Z) as [_ H].
  apply H. repeat constructor; discriminate.
Defined.

(* ===================================================================== *)
(** ** More about the report *)
(* ===================================================================== *)

Section ReportMore.
Import Reporter.
Variable U : unicode.
Variable name : str.

(** A key that is no lower-cased tracked name is not put into the
    dictionary of line 72. *)
Lemma init_journal_counts_other (journals : list str) (d : gmap str jcount)
    (k : str) :
  ~ In k (List.map (lower U) journals) ->
  fold_left (fun d journal => <[lower U journal := jzero]> d) journals d !! k
  = d !! k.
Proof.
  revert d; induction journals as [|j journals IH]; intros d H; [reflexivity|].
  simpl in *. rewrite IH by tauto.
  apply lookup_insert_ne. intros E. apply H. left. exact E.
Qed.

Lemma peer_loop_other (journals : list str) (df_papers : list paper) (k : str) :
  ~ In k (List.map (lower U) journals) ->
  journal_counts (peer_loop U name journals df_papers) !! k = None.
Proof.
  intros H. unfold peer_loop.
  destruct (peer_fold_fields U name (peer_rows df_papers) (init_state U journals))
    as (_ & _ & _ & _ & _ & _ & Hk).
  rewrite Hk. unfold init_state at 1. cbn [journal_counts].
  unfold init_journal_counts. rewrite init_journal_counts_other by exact H.
  reflexivity.
Qed.

Lemma peer_loop_counts (journals : list str) (df_papers : list paper) :
  let st := peer_loop U name journals df_papers in
  peer_reviewed_count st = count_rows peer_reviewed df_papers /\
  first_author_count st
  = count_rows (fun row => peer_reviewed row && is_first_author name row)
      df_papers /\
  last_author_count st
  = count_rows (fun row => peer_reviewed row && is_last_author name row)
      df_papers.
Proof.
  cbv zeta. unfold peer_loop.
  destruct (peer_fold_fields U name (peer_rows df_papers) (init_state U journals))
    as (-> & -> & -> & _).
  cbn [init_state peer_reviewed_count first_author_count last_author_count].
  rewrite !Z.add_0_l, peer_rows_filter, !count_rows_filter.
  rewrite <- count_rows_all, count_rows_filter.
  repeat split. unfold count_rows. do 2 f_equal. apply filter_ext.
  intros row. apply andb_true_r.
Qed.

Lemma count_rows_zero (P : paper -> bool) (rows : list paper) :
  (forall row, In row rows -> P row = false) -> count_rows P rows = 0%Z.
Proof.
  intros H. induction rows as [|row rows IH]; [reflexivity|].
  rewrite count_rows_cons, (H row (or_introl eq_refl)), IH; [reflexivity|].
  intros r Hr. apply H. right. exact Hr.
Qed.

Lemma filter_none {A} (f : A -> bool) (l : list A) :
  (forall x, In x l -> f x = false) -> List.filter f l = [].
Proof.
  intros H. induction l as [|x l IH]; [reflexivity|].
  simpl. rewrite (H x (or_introl eq_refl)). apply IH.
  intros y Hy. apply H. right. exact Hy.
Qed.

Lemma filter_perm {A} (f : A -> bool) (l l' : list A) :
  Permutation l l' -> Permutation (List.filter f l) (List.filter f l').
Proof.
  induction 1 as [|x l l' _ IH|x y l|l l' l'' _ IH1 _ IH2]; simpl.
  - constructor.
  - destruct (f x); [constructor|]; exact IH.
  - destruct (f x), (f y); try reflexivity. constructor.
  - etransitivity; eassumption.
Qed.

Lemma count_rows_perm (P : paper -> bool) (rows rows' : list paper) :
  Permutation rows rows' -> count_rows P rows = count_rows P rows'.
Proof.
  intros H. unfold count_rows. f_equal.
  apply Permutation_length, filter_perm, H.
Qed.

Lemma sum_citations_perm (rows rows' : list paper) :
  Permutation rows rows' -> sum_citations rows = sum_citations rows'.
Proof.
  induction 1 as [|x l l' _ IH|x y l|l l' l'' _ IH1 _ IH2]; simpl; lia.
Qed.

Lemma h_index_perm (l l' : list Z) :
  Permutation l l' -> h_index_of l = h_index_of l'.
Proof.
  intros Hp. apply Z.le_antisymm; apply h_index_ext; intros r;
    rewrite (at_least_perm r _ _ Hp); reflexivity.
Qed.

Lemma venue_tally_perm (rows rows' : list paper) (journal : str) :
  Permutation rows rows' ->
  venue_tally U name rows journal = venue_tally U name rows' journal.
Proof.
  intros H. unfold venue_tally.
  rewrite !(count_rows_perm _ _ _ H). reflexivity.
Qed.

End ReportMore.

(** X11. [generate_latex_report] never fails on a key that is missing from
    the dictionary of the journals, whatever the table and the list of
    tracked journals: it writes the statistics, an empty line and the two
    lists of the papers. *)
Theorem generate_latex_report_returns (U : unicode) (df_papers : list paper)
    (name : str) (journals : list str) (current_date : str) :
  exists statistics_text,
    Reporter.statistics U (Reporter.peer_loop U name journals df_papers)
      journals current_date = Ok statistics_text /\
    Reporter.generate_latex_report U df_papers name journals current_date
    = Ok (statistics_text ++ nl ++ nl
          ++ two_lists
               (concat (List.map (fun row =>
                  item_text name (title row) (authors row) (url row)
                    (title_case U (reference row)) (year row))
                  (List.filter (fun row => negb (isarxiv row)) df_papers)))
               (concat (List.map (fun row =>
                  item_text name (title row) (authors row) (url row)
                    (reference row) (year row))
                  (List.filter isarxiv df_papers)))).
Proof.
  eexists. split; [apply statistics_text|].
  unfold Reporter.generate_latex_report.
  rewrite statistics_text. cbn [bind]. rewrite papers_list_items. reflexivity.
Qed.

(** X12. For a table that holds preprints only, or no row at all, the
    statistics are the text with zeros and without the sentence about the
    tracked journals, whatever the tracked journals are. *)
Theorem statistics_of_preprints_only (U : unicode) (df_papers : list paper)
    (name : str) (journals : list str) (current_date : str) :
  forallb isarxiv df_papers = true ->
  Reporter.statistics U (Reporter.peer_loop U name journals df_papers)
    journals current_date
  = Ok (nl ++ lit "0 peer-reviewed publications, 0 papers as first author, 0 papers as last author."
        ++ nl ++ lit "\textbf{h-index: 0. Citations: 0} (Google Scholar, as of "
        ++ current_date ++ lit ").").
Proof.
  intros Hall. rewrite forallb_forall in Hall.
  assert (Hz : forall Q, count_rows (fun row => peer_reviewed row && Q row)
                           df_papers = 0%Z).
  { intros Q. apply count_rows_zero. intros row Hin.
    unfold peer_reviewed. rewrite (Hall row Hin). reflexivity. }
  assert (Hp : count_rows peer_reviewed df_papers = 0%Z).
  { apply count_rows_zero. intros row Hin.
    unfold peer_reviewed. rewrite (Hall row Hin). reflexivity. }
  assert (Hf : List.filter peer_reviewed df_papers = []).
  { apply filter_none. intros row Hin.
    unfold peer_reviewed. rewrite (Hall row Hin). reflexivity. }
  rewrite statistics_text, Hp, !Hz, Hf.
  rewrite filter_none.
  - reflexivity.
  - intros journal _. unfold venue_tally. cbn [Reporter.count].
    rewrite Hz. reflexivity.
Qed.

Lemma statistics_of_preprints_only_witness :
  Reporter.statistics ascii_only
    (Reporter.peer_loop ascii_only (lit "A. Smith") Reporter.default_journals
       [journal_paper_as_preprint])
    Reporter.default_journals (lit "January 01, 2025")
  = Ok (nl ++ lit "0 peer-reviewed publications, 0 papers as first author, 0 papers as last author."
        ++ nl ++ lit "\textbf{h-index: 0. Citations: 0} (Google Scholar, as of "
        ++ lit "January 01, 2025" ++ lit ").").
Proof.
  apply (statistics_of_preprints_only ascii_only [journal_paper_as_preprint]).
  reflexivity.
Defined.

(** X13. After the loop over the table, the dictionary of the journals has
    the lower-cased names of the tracked journals as its keys and no other:
    a journal of the table that is not tracked is never added.  The entry of
    a tracked journal holds the number of rows that are not preprints and
    are in that journal up to case, and how many of them have the name as
    first and as last author. *)
Theorem journal_counts_after_the_loop (U : unicode) (name : str)
    (journals : list str) (df_papers : list paper) :
  let d := Reporter.journal_counts
             (Reporter.peer_loop U name journals df_papers) in
  (forall journal,
     In journal journals ->
     d !! lower U journal = Some (venue_tally U name df_papers journal)) /\
  (forall key, ~ In key (List.map (lower U) journals) -> d !! key = None) /\
  (forall row,
     In row df_papers ->
     ~ In (lower U (journal row)) (List.map (lower U) journals) ->
     d !! lower U (journal row) = None).
Proof.
  intros d. split; [|split].
  - intros journal Hin. apply peer_loop_lookup, Hin.
  - intros key Hk. apply peer_loop_other, Hk.
  - intros row _ Hk. apply peer_loop_other, Hk.
Qed.

Lemma journal_counts_after_the_loop_witness :
  Reporter.journal_counts
    (Reporter.peer_loop ascii_only (lit "A. Smith") Reporter.default_journals
       [journal_paper]) !! lit "journal of physics b" = None
  /\ Reporter.journal_counts
       (Reporter.peer_loop ascii_only (lit "A. Smith") Reporter.default_journals
          scenario) !! lit "nature photonics"
     = Some (venue_tally ascii_only (lit "A. Smith") scenario
               (lit "Nature Photonics")).
Proof.
  split.
  - destruct (journal_counts_after_the_loop ascii_only (lit "A. Smith")
                Reporter.default_journals [journal_paper]) as (_ & _ & H).
    apply (H journal_paper).
    + left. reflexivity.
    + vm_compute. intros H'. repeat (destruct H' as [H'|H']; [discriminate|]).
      exact H'.
  - destruct (journal_counts_after_the_loop ascii_only (lit "A. Smith")
                Reporter.default_journals scenario) as (H & _).
    apply (H (lit "Nature Photonics")). left. reflexivity.
Defined.

(** X14. In the statistics, a tracked journal never has more first-author
    or last-author papers than papers, nor more papers than there are
    peer-reviewed papers, nor more first-author (last-author) papers than
    the report counts in all. *)
Theorem journal_counts_bounds (U : unicode) (name : str)
    (journals : list str) (df_papers : list paper) (journal : str)
    (c : Reporter.jcount) :
  let st := Reporter.peer_loop U name journals df_papers in
  In journal journals ->
  Reporter.journal_counts st !! lower U journal = Some c ->
  (0 <= Reporter.first_author c <= Reporter.count c)%Z /\
  (0 <= Reporter.last_author c <= Reporter.count c)%Z /\
  (Reporter.count c <= Reporter.peer_reviewed_count st)%Z /\
  (Reporter.first_author c <= Reporter.first_author_count st)%Z /\
  (Reporter.last_author c <= Reporter.last_author_count st)%Z.
Proof.
  intros st Hin Hc. unfold st in *.
  rewrite (peer_loop_lookup U name journals df_papers journal Hin) in Hc.
  injection Hc as <-.
  destruct (peer_loop_counts U name journals df_papers) as (-> & -> & ->).
  unfold venue_tally.
  cbn [Reporter.count Reporter.first_author Reporter.last_author].
  assert (Hnn : forall P, (0 <= count_rows P df_papers)%Z)
    by (intros P; unfold count_rows; lia).
  repeat split; try apply Hnn; apply count_rows_le; intros row H;
    repeat (apply andb_true_iff in H as [H ?]);
    rewrite ?andb_true_iff; auto.
Qed.

Lemma journal_counts_bounds_witness :
  (Reporter.first_author
     (venue_tally ascii_only (lit "A. Smith") scenario (lit "Nature Photonics"))
   <= Reporter.count
        (venue_tally ascii_only (lit "A. Smith") scenario (lit "Nature Photonics")))%Z.
Proof.
  destruct (journal_counts_bounds ascii_only (lit "A. Smith")
              Reporter.default_journals scenario (lit "Nature Photonics")
              (venue_tally ascii_only (lit "A. Smith") scenario
                 (lit "Nature Photonics")))
    as ([_ H] & _).
  - left. reflexivity.
  - apply peer_loop_lookup. left. reflexivity.
  - exact H.
Defined.

(** X15. The statistics do not depend on the order of the rows of the
    table. *)
Theorem statistics_do_not_depend_on_order (U : unicode) (name : str)
    (journals : list str) (df_papers df_papers' : list paper)
    (current_date : str) :
  Permutation df_papers df_papers' ->
  Reporter.statistics U (Reporter.peer_loop U name journals df_papers)
    journals current_date
  = Reporter.statistics U (Reporter.peer_loop U name journals df_papers')
      journals current_date.
Proof.
  intros Hp. rewrite !statistics_text.
  rewrite !(count_rows_perm _ _ _ Hp).
  rewrite (sum_citations_perm _ _ (filter_perm peer_reviewed _ _ Hp)).
  rewrite (h_index_perm _ _
             (Permutation_map citations (filter_perm peer_reviewed _ _ Hp))).
  assert (E : forall journal,
    venue_tally U name df_papers journal = venue_tally U name df_papers' journal)
    by (intros journal; apply venue_tally_perm, Hp).
  replace (List.filter (fun journal =>
             (0 <? Reporter.count (venue_tally U name df_papers journal))%Z)
             journals)
    with (List.filter (fun journal =>
             (0 <? Reporter.count (venue_tally U name df_papers' journal))%Z)
             journals)
    by (apply filter_ext; intros journal; rewrite E; reflexivity).
  erewrite map_ext; [reflexivity|]. intros journal. cbv beta. rewrite E.
  reflexivity.
Qed.

Lemma statistics_do_not_depend_on_order_witness :
  Reporter.statistics ascii_only
    (Reporter.peer_loop ascii_only (lit "A. Smith") Reporter.default_journals
       scenario)
    Reporter.default_journals (lit "January 01, 2025")
  = Reporter.statistics ascii_only
      (Reporter.peer_loop ascii_only (lit "A. Smith") Reporter.default_journals
         (rev scenario))
      Reporter.default_journals (lit "January 01, 2025").
Proof.
  apply statistics_do_not_depend_on_order. apply Permutation_rev.
Defined.

(* ===================================================================== *)
(** ** The bold name *)
(* ===================================================================== *)

Section Bold.

Lemma replace_not_shorter (s old new : str) :
  old <> [] -> (length old <= length new)%nat ->
  (length s <= length (replace s old new))%nat.
Proof.
  intros Hne Hlen. remember (length s) as m eqn:Hm. revert s Hm.
  induction m as [m IH] using (well_founded_induction lt_wf). intros s Hm.
  destruct (find old s) as [n|] eqn:F.
  - rewrite (replace_first _ _ _ _ Hne F), !length_app.
    pose proof (find_Some_bound _ _ _ F) as Hb.
    assert (Hd : (length (drop (n + length old) s) < m)%nat).
    { rewrite length_drop. destruct old; [congruence|]. simpl in *. lia. }
    specialize (IH _ Hd _ eq_refl). rewrite length_drop in IH.
    rewrite length_take. lia.
  - rewrite (replace_absent _ _ _ F). lia.
Qed.

(** A replacement by a longer text makes a string with an occurrence
    longer. *)
Lemma replace_longer (s old new : str) :
  (length old < length new)%nat -> contains old s = true ->
  (length s < length (replace s old new))%nat.
Proof.
  intros Hlen Hc. destruct (decide (old = [])) as [->|Hne].
  - unfold replace. rewrite length_app.
    assert (H : (length s <= length (flat_map (fun c => c :: new) s))%nat).
    { clear Hc. induction s as [|c s IH]; simpl; [lia|].
      rewrite length_app. lia. }
    simpl in Hlen. lia.
  - rewrite contains_find in Hc. destruct (find old s) as [n|] eqn:F; [|discriminate].
    rewrite (replace_first _ _ _ _ Hne F), !length_app.
    pose proof (find_Some_bound _ _ _ F) as Hb.
    pose proof (replace_not_shorter (drop (n + length old) s) old new Hne
                  ltac:(lia)) as Hr.
    rewrite length_drop in Hr. rewrite length_take. lia.
Qed.

End Bold.

(** X16. The author line of an item differs from the authors field exactly
    when the name occurs in the field as a piece of text, inside a longer
    name as well: without an occurrence the line is the field, and with one
    the line is longer than the field. *)
Theorem bold_name_changes_the_line (authors name : str) :
  (Reporter.bolden authors name = authors <-> contains name authors = false) /\
  (contains name authors = true ->
   (length authors < length (Reporter.bolden authors name))%nat).
Proof.
  assert (Hlen : (length name < length (lit "\textbf{" ++ name ++ lit "}"))%nat).
  { rewrite !length_app. simpl. lia. }
  assert (Hlong : contains name authors = true ->
            (length authors < length (Reporter.bolden authors name))%nat).
  { intros Hc. apply replace_longer; assumption. }
  split; [|exact Hlong]. split.
  - intros E. destruct (contains name authors) eqn:Hc; [|reflexivity].
    specialize (Hlong eq_refl). rewrite E in Hlong. lia.
  - intros Hc. apply replace_absent, find_None_contains, Hc.
Qed.

Lemma bold_name_changes_the_line_witness :
  (length (lit "A. Smithson, B. Jones")
   < length (Reporter.bolden (lit "A. Smithson, B. Jones") (lit "A. Smith")))%nat.
Proof.
  destruct (bold_name_changes_the_line (lit "A. Smithson, B. Jones")
              (lit "A. Smith")) as [_ H].
  exact (H eq_refl).
Defined.

(* ===================================================================== *)
(** ** From the scraper to the report *)
(* ===================================================================== *)

Section ScraperToReport.
Variable U : unicode.
Hypothesis upper_without_comma :
  forall c, is_ascii c = false -> has_char 44%N (uc_upper U c) = false.

Lemma has_char_periods (t : str) : has_char 44%N (periods t) = has_char 44%N t.
Proof.
  induction t as [|c t IH]; [reflexivity|].
  change (periods (c :: t)) with (c :: 46%N :: periods t).
  unfold has_char in *. cbn [existsb]. rewrite IH. reflexivity.
Qed.

Lemma has_char_upper (x : str) :
  has_char 44%N x = false -> has_char 44%N (upper U x) = false.
Proof.
  induction x as [|c x IH]; intros H; [reflexivity|].
  unfold has_char in H. cbn [existsb] in H. apply orb_false_iff in H as [Hc Hx].
  unfold upper. cbn [flat_map]. rewrite has_char_app. fold (upper U x).
  rewrite (IH Hx), orb_false_r. unfold upper_char.
  destruct (is_ascii c) eqn:A; [|apply upper_without_comma, A].
  unfold has_char. cbn [existsb]. rewrite orb_false_r.
  apply N.eqb_neq in Hc. apply N.eqb_neq.
  unfold ascii_upper, is_ascii_lower.
  destruct (N.leb_spec 97 c), (N.leb_spec c 122); simpl; lia.
Qed.

Lemma has_char_take_drop (c : char) (s : str) (k : nat) :
  has_char c s = false ->
  has_char c (take k s) = false /\ has_char c (drop k s) = false.
Proof.
  intros H. rewrite <- (take_drop k s), has_char_app in H.
  apply orb_false_iff in H. exact H.
Qed.

Lemma format_name_without_comma (n : str) :
  has_char 44%N n = false ->
  has_char 44%N (Scraper.format_name U n) = false.
Proof.
  intros H. rewrite format_name_closed, !has_char_app.
  assert (Ha : has_char 44%N (after_first (lit " ") n) = false).
  { unfold after_first. destruct (find (lit " ") n); [|reflexivity].
    apply has_char_take_drop, H. }
  assert (Hu : has_char 44%N (up_to_first (lit " ") n) = false).
  { unfold up_to_first. destruct (find (lit " ") n); [|exact H].
    apply has_char_take_drop, H. }
  rewrite Ha. change (has_char 44%N (lit " ")) with false.
  rewrite ?orb_false_r. unfold dotted_initials. cbv zeta.
  match goal with |- context [upper U ?y] => set (x := y) end.
  assert (Hx : has_char 44%N x = false).
  { unfold x. destruct (3 <=? _)%nat; [|exact Hu].
    apply has_char_take_drop, Hu. }
  pose proof (has_char_upper x Hx) as Hup.
  destruct (upper U x) as [|c t] eqn:E; [reflexivity|].
  rewrite has_char_periods. exact Hup.
Qed.

Lemma hd_map {A B} (f : A -> B) (l : list A) (a : A) (b : B) :
  l <> [] -> hd b (List.map f l) = f (hd a l).
Proof. destruct l; [congruence | reflexivity]. Qed.

Lemma last_map_nonempty {A B} (f : A -> B) (l : list A) (a : A) (b : B) :
  l <> [] -> List.last (List.map f l) b = f (List.last l a).
Proof.
  induction l as [|x l IH]; [congruence|]. intros _.
  destruct l as [|y l]; [reflexivity|].
  change (List.last (List.map f (x :: y :: l)) b)
    with (List.last (List.map f (y :: l)) b).
  change (List.last (x :: y :: l) a) with (List.last (y :: l) a).
  apply IH. discriminate.
Qed.

(** The author list the report reads from a formatted string of names. *)
Lemma authors_list_format_names (names : list str) :
  names <> [] ->
  forallb (fun n => negb (has_char 44%N n)) names = true ->
  Reporter.authors_list (Scraper.format_names U (join (lit ", ") names))
  = List.map (fun n => strip (Scraper.format_name U n)) names.
Proof.
  intros Hne Hnames. rewrite format_names_map, split_join_names.
  - rewrite authors_list_join.
    + apply map_map.
    + destruct names; [congruence | discriminate].
    + apply forallb_forall. intros e He.
      apply in_map_iff in He as (n & <- & Hn).
      rewrite forallb_forall in Hnames. specialize (Hnames n Hn).
      apply negb_true_iff in Hnames. apply negb_true_iff.
      apply format_name_without_comma, Hnames.
  - exact Hne.
  - apply forallb_forall. intros n Hn.
    rewrite forallb_forall in Hnames. specialize (Hnames n Hn).
    apply negb_true_iff in Hnames. apply negb_true_iff.
    apply (contains_without_first 44%N [32%N]), Hnames.
Qed.

End ScraperToReport.

(** X17. What the scraper stores and what the report reads fit: for the
    names of a page without commas inside a name, the author list the report
    splits off the stored authors field holds the formatted names, one for
    each name and in the same order, without the white space around them;
    so a row counts as first-author (last-author) paper exactly when the
    formatted first (last) name, without the white space around it, is the
    name given to the report.  Upper-casing is taken to give no comma for a
    character outside ASCII. *)
Theorem report_reads_the_scraped_authors (U : unicode) (names : list str)
    (name : str) (row : paper) :
  (forall c, is_ascii c = false -> has_char 44%N (uc_upper U c) = false) ->
  names <> [] ->
  forallb (fun n => negb (has_char 44%N n)) names = true ->
  authors row = Scraper.format_names U (join (lit ", ") names) ->
  Reporter.authors_list (authors row)
  = List.map (fun n => strip (Scraper.format_name U n)) names /\
  (Reporter.is_first_author name row = true
   <-> strip (Scraper.format_name U (hd [] names)) = name) /\
  (Reporter.is_last_author name row = true
   <-> strip (Scraper.format_name U (List.last names [])) = name).
Proof.
  intros HU Hne Hnames Hrow.
  pose proof (authors_list_format_names U HU names Hne Hnames) as E.
  rewrite <- Hrow in E. split; [exact E|].
  unfold Reporter.is_first_author, Reporter.is_last_author. rewrite E.
  pose proof (hd_map (fun n => strip (Scraper.format_name U n)) names [] []
                Hne) as Hh.
  pose proof (last_map_nonempty (fun n => strip (Scraper.format_name U n))
                names [] [] Hne) as Hl.
  cbv beta in Hh, Hl. unfold str, char in *. rewrite Hh, Hl.
  split; apply str_eqb_eq.
Qed.

Lemma report_reads_the_scraped_authors_witness :
  Reporter.authors_list
    (Scraper.format_names ascii_only (lit "c sanchez munoz, E del Valle, Plato"))
  = [lit "C. sanchez munoz"; lit "E. del Valle"; lit "P."].
Proof.
  destruct (report_reads_the_scraped_authors ascii_only
              [lit "c sanchez munoz"; lit "E del Valle"; lit "Plato"]
              (lit "C. sanchez munoz")
              (row_with_authors
                 (Scraper.format_names ascii_only
                    (lit "c sanchez munoz, E del Valle, Plato"))))
    as [H _].
  - intros c Hc. unfold has_char. cbn [ascii_only uc_upper existsb].
    rewrite orb_false_r. apply N.eqb_neq.
    unfold is_ascii in Hc. apply N.ltb_ge in Hc. lia.
  - discriminate.
  - reflexivity.
  - reflexivity.
  - exact H.
Defined.

(* ===================================================================== *)
(** ** The rows of a scraped table *)
(* ===================================================================== *)

Section TableFacts.
Variable U : unicode.
Variable name : str.
Variable pseudonyms : list str.

Lemma up_to_first_without (sep s : str) :
  sep <> [] -> contains sep (up_to_first sep s) = false.
Proof.
  intros Hne. unfold up_to_first. destruct (find sep s) as [n|] eqn:F.
  - apply find_None_contains, find_take_None; assumption.
  - apply find_None_contains, F.
Qed.

Lemma scraped_row_invariant (e : Scraper.entry) (row : paper) :
  Scraper.scrape_paper U name pseudonyms e = Ok row ->
  (isarxiv row = true <-> journal row = lit "arXiv") /\
  (isarxiv row = true ->
   exists piece, reference row = lit "arXiv: " ++ piece /\
                 contains (lit "arXiv:") piece = false).
Proof.
  intros H.
  destruct (scrape_paper_Ok U _ _ _ _ H) as (ref & y & jt & au & H1 & H2 & H3 & H4).
  rewrite (scrape_paper_unfold U name pseudonyms e ref y jt au H1 H2 H3 H4) in H.
  destruct (Scraper.is_arxiv U (title_case U jt)) eqn:Hflag.
  - destruct (contains (lit "arXiv:") ref); [|discriminate].
    injection H as <-. cbn [isarxiv journal reference]. split; [tauto|].
    intros _. eexists. split; [reflexivity|].
    apply up_to_first_without. discriminate.
  - injection H as <-. cbn [isarxiv journal reference].
    split; [|discriminate]. split; [discriminate|].
    intros E. rewrite E, is_arxiv_literal in Hflag. discriminate.
Qed.

End TableFacts.

(** X18. In every row of a table that [getGSdata] returns, the preprint
    flag is set exactly when the journal is the text [arXiv], and the
    reference of a preprint is [arXiv: ] followed by a text that holds no
    [arXiv:]. *)
Theorem scraped_table_rows (U : unicode) (name : str) (pseudonyms : list str)
    (papers : list Scraper.entry) (rows : list paper) :
  Scraper.getGSdata U name pseudonyms papers = Ok rows ->
  List.Forall (fun row =>
    (isarxiv row = true <-> journal row = lit "arXiv") /\
    (isarxiv row = true ->
     exists piece, reference row = lit "arXiv: " ++ piece /\
                   contains (lit "arXiv:") piece = false)) rows.
Proof.
  unfold Scraper.getGSdata. intros H.
  apply scrape_papers_Ok in H as (new & -> & HF). rewrite app_nil_l.
  induction HF as [|e row papers' rows' He _ IH]; constructor.
  - eapply scraped_row_invariant, He.
  - exact IH.
Qed.

Lemma scraped_table_rows_witness :
  exists rows,
    Scraper.getGSdata ascii_only (lit "A. Smith") [] [twice_entry; alias_entry]
    = Ok rows /\
    List.Forall (fun row => isarxiv row = true <-> journal row = lit "arXiv") rows.
Proof.
  eexists. split; [reflexivity|].
  pose proof (scraped_table_rows ascii_only (lit "A. Smith") []
                [twice_entry; alias_entry] _ eq_refl) as H.
  eapply List.Forall_impl; [|exact H]. intros row [Hrow _]. exact Hrow.
Defined.
